(** * scrape_and_summarize.py: collection, chunking and the summary pipeline

    A shallow embedding of [src/scrape_and_summarize.py].

    - Python [str] values are sequences of Unicode code points; [len]
      counts code points.  A string is a [list N] here and [len] is the
      length of that list.
    - Python [int] is [Z].
    - An aware [datetime] is the instant it denotes, in microseconds
      since the epoch ([Z]), together with the zone it is shown in; all
      the rows of a run are shown in the one zone [OUTPUT_TZ], whose
      UTC offset at an instant is [utcoffset].  Datetimes of different
      zones compare by their instants, datetimes of one zone by their
      wall clocks.  A [datetime] holds the years 1 to 9999: arithmetic
      that leaves them raises.
    - A text file holds the text that was written to it; reading it in
      text mode turns every line ending into a line feed, and writing
      a text UTF-8 cannot encode raises once the file is truncated.
    - The browser, the file system, the process environment and the
      generation service are the fields of an explicit [world] that the
      effectful functions thread through a state-and-exception monad,
      logging every request they issue.  The generation service may
      fail at any request.  The browser and the disk do what they are
      asked: of the ways a file operation can fail, the ones modelled
      are the file that is not there when it is read and the text that
      cannot be encoded when it is written. *)

From Stdlib Require Import ZArith String Ascii DecimalString Sorted Lia.
From stdpp Require Import gmap list.

Local Open Scope Z_scope.

(* ================================================================== *)
(** ** Python strings *)
(* ================================================================== *)

Module PyStr.

Abbreviation char := N (only parsing).
Abbreviation str := (list N) (only parsing).

(** An ASCII literal of the source, as code points. *)
Definition lit (s : string) : str :=
  map N_of_ascii (list_ascii_of_string s).

Definition LF : char := 10%N.
Definition CR : char := 13%N.

(** [len(s)] *)
Definition len (s : str) : Z := Z.of_nat (length s).

(** The number of bytes of [s.encode("utf-8")], the encoding every
    [open(...)] and [write_text] of the source names. *)
Definition utf8_width (c : char) : Z :=
  if (c <? 128)%N then 1
  else if (c <? 2048)%N then 2
  else if (c <? 65536)%N then 3
  else 4.

Definition utf8_len (s : str) : Z :=
  fold_right (fun c n => utf8_width c + n) 0 s.

(** [s.startswith(p)] *)
Fixpoint startswith (p s : str) : bool :=
  match p, s with
  | [], _ => true
  | _ :: _, [] => false
  | a :: p', b :: s' => if (a =? b)%N then startswith p' s' else false
  end.

(** [s.split(sep)] for a non-empty [sep]: the text is cut at every
    occurrence of [sep] found scanning left to right, an occurrence
    being consumed whole before the scan resumes.  [skip] counts the
    characters of the occurrence just found that are still to be
    passed over. *)
Fixpoint split_from (sep : str) (skip : nat) (s : str) : list str :=
  match s with
  | [] => [[]]
  | c :: r =>
      match skip with
      | S k => split_from sep k r
      | O =>
          if startswith sep s
          then [] :: split_from sep (length sep - 1) r
          else match split_from sep 0 r with
               | b :: bs => (c :: b) :: bs
               | [] => [[c]]
               end
      end
  end.

Definition split (sep s : str) : list str := split_from sep 0 s.

(** [s.replace(old, new)] for a non-empty [old]: every occurrence of
    [old], leftmost first and not overlapping, becomes [new]. *)
Fixpoint replace_from (old new : str) (skip : nat) (s : str) : str :=
  match s with
  | [] => []
  | c :: r =>
      match skip with
      | S k => replace_from old new k r
      | O =>
          if startswith old s
          then new ++ replace_from old new (length old - 1) r
          else c :: replace_from old new 0 r
      end
  end.

Definition replace (old new s : str) : str := replace_from old new 0 s.

(** [sep.join(parts)] *)
Fixpoint join (sep : str) (parts : list str) : str :=
  match parts with
  | [] => []
  | [x] => x
  | x :: rest => x ++ sep ++ join sep rest
  end.

(** The characters [str.strip()] removes: those for which
    [str.isspace] holds. *)
Definition is_space (c : char) : bool :=
  ((9 <=? c) && (c <=? 13) || (28 <=? c) && (c <=? 32)
   || (c =? 133) || (c =? 160) || (c =? 5760)
   || (8192 <=? c) && (c <=? 8202)
   || (c =? 8232) || (c =? 8233) || (c =? 8239) || (c =? 8287)
   || (c =? 12288))%N.

Fixpoint lstrip (s : str) : str :=
  match s with
  | c :: r => if is_space c then lstrip r else s
  | [] => []
  end.

Definition rstrip (s : str) : str := rev (lstrip (rev s)).

(** [s.strip()] *)
Definition strip (s : str) : str := rstrip (lstrip s).

(** Truthiness of a string or of a list: non-empty. *)
Definition truthy {A} (l : list A) : bool :=
  match l with [] => false | _ :: _ => true end.

(** The code points UTF-8 encodes: all but the surrogates. *)
Definition encodable_char (c : char) : bool :=
  ((c <? 55296) || (57343 <? c) && (c <=? 1114111))%N.

(** [s.encode("utf-8")] returns. *)
Definition encodable (s : str) : bool := forallb encodable_char s.

(** What [f.read()] makes of the text of a file opened with
    [open(path, "r")]: with the default [newline=None], ["\r\n"] and
    a ["\r"] on its own are both read as ["\n"]. *)
Definition universal_newlines (s : str) : str :=
  replace [CR] [LF] (replace [CR; LF] [LF] s).

End PyStr.
Import PyStr.

(* ================================================================== *)
(** ** Chunker *)
(* ================================================================== *)

Module Chunker.

(** The blank-line separator ["\n\n"]. *)
Definition BLANK : str := [LF; LF].
(** ["\r\n"] and ["\n"]. *)
Definition CRLF : str := [CR; LF].
Definition NL : str := [LF].

(** The body of [for block in s.split("\n\n")], run over the blocks
    that remain, from the loop state [(chunks, cur, total)], followed
    by the final [if cur: chunks.append("".join(cur))]. *)
Fixpoint chunk_loop (max_chars : Z) (blocks : list str)
         (chunks cur : list str) (total : Z) : list str :=
  match blocks with
  | [] => if truthy cur then chunks ++ [concat cur] else chunks
  | block :: rest =>
      let block := block ++ BLANK in
      if truthy cur && (total + len block >? max_chars)
      then chunk_loop max_chars rest
                      (chunks ++ [concat cur]) [block] (0 + len block)
      else chunk_loop max_chars rest
                      chunks (cur ++ [block]) (total + len block)
  end.

(** [chunk_text(s, max_chars)] *)
Definition chunk_text (s : str) (max_chars : Z) : list str :=
  let s := replace CRLF NL s in
  chunk_loop max_chars (split BLANK s) [] [] 0.

End Chunker.
Import Chunker.

(* ================================================================== *)
(** ** Exceptions and results *)
(* ================================================================== *)

Module Py.

(** The exceptions a run can end with.  [ServiceError] stands for
    whatever the generation service's client raises; [OverflowError]
    and [UnicodeEncodeError] are kept without their messages. *)
Inductive exn : Type :=
| ValueError (msg : str)
| TypeError (msg : str)
| RuntimeError (msg : str)
| FileNotFoundError (path : str)
| OverflowError
| UnicodeEncodeError
| ServiceError (msg : str).

(** A computation that either returns or raises. *)
Inductive result (A : Type) : Type :=
| Ok (a : A)
| Raise (e : exn).
Arguments Ok {A} a.
Arguments Raise {A} e.

#[export] Instance result_ret : MRet result := fun A a => Ok a.
#[export] Instance result_bind : MBind result := fun A B f r =>
  match r with
  | Ok a => f a
  | Raise e => Raise e
  end.

End Py.
Import Py.

(* ================================================================== *)
(** ** Collector: what one article contributes, the loop, the corpus *)
(* ================================================================== *)

Module Collector.

(** What one [article[data-testid='tweet']] handle answers to the
    queries of the loop.  The outer [option] is the element a
    [query_selector] finds or not, the inner one the attribute
    [get_attribute] reads or not. *)
Record article : Type := Article {
  link_href : option (option str);
  time_datetime : option (option str);
  tweetText : list str
}.

(** A value of [datetime.fromisoformat]: with a UTC offset it denotes
    an instant; without one it is naive. *)
Inductive parsed : Type :=
| Aware (instant : Z)
| Naive (wall : Z).

(** [{"time": ..., "text": ...}] *)
Record row : Type := Row { time : Z; text : str }.

#[export] Instance row_eq_dec : EqDecision row.
Proof. solve_decision. Defined.

(** The loop state [(rows, seen)]. *)
Definition state : Type := list row * gset (list N).

(** [h] hours, in microseconds. *)
Definition hours (h : Z) : Z := h * 3600000000.

(** [datetime.min] and [datetime.max] on the clock of UTC, in
    microseconds since the epoch: the first microsecond of the year 1
    and the last one of the year 9999. *)
Definition DATETIME_MIN : Z := -62135596800000000.
Definition DATETIME_MAX : Z := 253402300799999999.

(** A [datetime] can hold the value. *)
Definition in_range (t : Z) : bool :=
  (DATETIME_MIN <=? t) && (t <=? DATETIME_MAX).

(** [timedelta(hours=h)], which holds at most 999999999 days either
    way and raises beyond. *)
Definition timedelta (h : Z) : result Z :=
  if (-999999999 <=? h / 24) && (h / 24 <=? 999999999) then Ok (hours h)
  else Raise OverflowError.

(** [now - delta] for [now = datetime.now(timezone.utc)], which raises
    when the result is not a [datetime]. *)
Definition minus (now delta : Z) : result Z :=
  if in_range (now - delta) then Ok (now - delta) else Raise OverflowError.

(** Line 71: [datetime.now(timezone.utc) - timedelta(hours=hours_back)]. *)
Definition cutoff_of (now hours_back : Z) : result Z :=
  delta ← timedelta hours_back; minus now delta.

(** ["\n".join([... inner_text ...]).strip() if parts else ""] *)
Definition tweet_text (a : article) : str :=
  if truthy (tweetText a) then strip (join [LF] (tweetText a)) else [].

(** [dt < cutoff] for the aware [cutoff]. *)
Definition before (dt : parsed) (cutoff : Z) : result bool :=
  match dt with
  | Aware t => Ok (t <? cutoff)
  | Naive _ =>
      Raise (TypeError
               (lit "can't compare offset-naive and offset-aware datetimes"))
  end.

Section Loop.

(** [datetime.fromisoformat], which raises on a string it cannot
    read. *)
Variable fromisoformat : str -> result parsed.

(** [ZoneInfo(OUTPUT_TZ).utcoffset] at an instant, in microseconds. *)
Variable utcoffset : Z -> Z.

(** [dt.astimezone(tz)]: the same instant, shown in the zone [tz].
    The value is first taken to UTC and from there to the wall clock
    of [tz]; either step raises when it leaves the years a [datetime]
    holds.  (A naive [dt] would be read on the clock of the machine;
    the loop never asks for it, [dt < cutoff] has raised before.) *)
Definition astimezone (dt : parsed) : result Z :=
  let t := match dt with Aware t => t | Naive t => t end in
  if in_range t && in_range (t + utcoffset t) then Ok t
  else Raise OverflowError.

(** The body of [for a in arts], lines 103 to 126. *)
Definition visit (cutoff : Z) (st : state) (a : article) : result state :=
  let '(rows, seen) := st in
  match link_href a with
  | None => Ok st
  | Some None => Ok st
  | Some (Some href) =>
      if negb (truthy href) || bool_decide (href ∈ seen) then Ok st
      else
        match time_datetime a with
        | None => Ok st
        | Some None => Ok st
        | Some (Some dt_str) =>
            if negb (truthy dt_str) then Ok st
            else
              dt ← fromisoformat (replace (lit "Z") (lit "+00:00") dt_str);
              old ← before dt cutoff;
              if (old : bool) then Ok st
              else
                t ← astimezone dt;
                Ok (rows ++ [Row t (tweet_text a)], {[href]} ∪ seen)
        end
  end.

(** [for a in arts: ...] *)
Fixpoint visit_all (cutoff : Z) (arts : list article) (st : state)
  : result state :=
  match arts with
  | [] => Ok st
  | a :: rest => st' ← visit cutoff st a; visit_all cutoff rest st'
  end.

End Loop.

(** The key of the final dict comprehension,
    [(r["time"].isoformat(), r["text"])].  [isoformat] of an aware
    datetime in the one zone [OUTPUT_TZ] spells the wall clock to the
    microsecond and the UTC offset, so two rows have the same string
    exactly when they carry the same instant: the instant stands for
    the string.  The identifier [href] is no part of a row, nor of its
    key. *)
Definition key (r : row) : Z * str := (time r, text r).

(** [d[k] = v] on an insertion-ordered dict: a key already there
    keeps its place and takes the new value, a new key goes last. *)
Fixpoint dict_set {K V : Type} `{EqDecision K}
         (d : list (K * V)) (k : K) (v : V) : list (K * V) :=
  match d with
  | [] => [(k, v)]
  | (k', v') :: d' =>
      if decide (k' = k) then (k', v) :: d'
      else (k', v') :: dict_set d' k v
  end.

(** [list({key(r): r for r in rows}.values())] *)
Definition dedupe (rows : list row) : list row :=
  map snd (fold_left (fun d r => dict_set d (key r) r) rows []).

Section Sort.

Variable utcoffset : Z -> Z.

(** The wall clock [r["time"]] shows in [OUTPUT_TZ], in microseconds
    since the epoch read on that clock. *)
Definition wall_clock (r : row) : Z := time r + utcoffset (time r).

(** [out.sort(key=lambda r: r["time"], reverse=True)]: a stable sort,
    greatest key first.  The keys are datetimes that share the one
    [tzinfo] object [tz], and Python compares two such datetimes by
    their wall clocks, leaving the offset and the fold aside.  Rows
    whose wall clocks are equal keep their order. *)
Fixpoint insert_desc (r : row) (l : list row) : list row :=
  match l with
  | [] => [r]
  | x :: l' =>
      if wall_clock x <=? wall_clock r then r :: l
      else x :: insert_desc r l'
  end.

Fixpoint sort_desc (l : list row) : list row :=
  match l with
  | [] => []
  | r :: l' => insert_desc r (sort_desc l')
  end.

(** Lines 133 to 136. *)
Definition corpus (rows : list row) : list row := sort_desc (dedupe rows).

End Sort.

End Collector.
Import Collector.

(* ================================================================== *)
(** ** The world the program runs in, and the pipeline *)
(* ================================================================== *)

Module Pipeline.

(** The requests a run issues, in the order it issues them. *)
Inductive event : Type :=
| EvLaunch
| EvGoto (url : str)
| EvClick (label : str)
| EvQuery
| EvWheel
| EvWait (ms : Z)
| EvClose
| EvRead (path : str)
| EvWrite (path content : str)
| EvConfigure (api_key : str)
| EvGenerate (model_name : str) (parts : list str).

(** - [environ_key]: [os.getenv("GOOGLE_API_KEY")];
    - [files]: the text files, by path;
    - [now_utc]: [datetime.now(timezone.utc)];
    - [renders]: what [query_selector_all] finds now (the head) and
      after each further turn of the wheel (the tail);
    - [generate_content]: the service's answer [resp.text] to a
      request, or the exception the request ends with;
    - [trace]: the requests issued so far. *)
Record world : Type := World {
  environ_key : option str;
  files : gmap (list N) (list N);
  now_utc : Z;
  renders : list (list article);
  generate_content : str -> list str -> result (option str);
  trace : list event
}.

Definition log (ev : event) (w : world) : world :=
  World (environ_key w) (files w) (now_utc w) (renders w)
        (generate_content w) (trace w ++ [ev]).

Definition store (path content : str) (w : world) : world :=
  World (environ_key w) (<[path := content]> (files w)) (now_utc w)
        (renders w) (generate_content w) (trace w).

Definition turn (w : world) : world :=
  World (environ_key w) (files w) (now_utc w) (tail (renders w))
        (generate_content w) (trace w).

(** State and exceptions: a run takes the world and leaves it changed,
    also when it raises. *)
Definition M (A : Type) : Type := world -> result A * world.

#[export] Instance M_ret : MRet M := fun A a w => (Ok a, w).
#[export] Instance M_bind : MBind M := fun A B f m w =>
  match m w with
  | (Ok a, w') => f a w'
  | (Raise e, w') => (Raise e, w')
  end.

Definition raise {A} (e : exn) : M A := fun w => (Raise e, w).
Definition lift {A} (r : result A) : M A := fun w => (r, w).
Definition emit (ev : event) : M unit := fun w => (Ok tt, log ev w).

(** The primitive requests. *)
Definition getenv : M (option str) := fun w => (Ok (environ_key w), w).
Definition datetime_now : M Z := fun w => (Ok (now_utc w), w).
Definition exists_file (path : str) : M bool :=
  fun w => (Ok (bool_decide (is_Some (files w !! path))), w).

(** [with open(path, "r", encoding="utf-8") as f: f.read()] *)
Definition read_file (path : str) : M str := fun w =>
  match files w !! path with
  | Some content => (Ok (universal_newlines content), log (EvRead path) w)
  | None => (Raise (FileNotFoundError path), w)
  end.

(** The pieces written before the first one UTF-8 cannot encode. *)
Fixpoint encodable_prefix (pieces : list str) : list str :=
  match pieces with
  | [] => []
  | piece :: rest =>
      if encodable piece then piece :: encodable_prefix rest else []
  end.

(** [with open(path, "w", encoding="utf-8") as f:] followed by one
    [f.write(piece)] for each of the [pieces].  Opening the file
    empties it; a piece UTF-8 cannot encode raises at its [f.write],
    before any of it is written, and the pieces written before it are
    in the file when the [with] closes it.  (The line feeds are written
    as they are, as on a system whose [os.linesep] is ["\n"].) *)
Definition write_pieces (path : str) (pieces : list str) : M unit := fun w =>
  let written := concat (encodable_prefix pieces) in
  let w' := log (EvWrite path written) (store path written w) in
  if forallb encodable pieces then (Ok tt, w')
  else (Raise UnicodeEncodeError, w').

(** [Path(path).write_text(content, encoding="utf-8")]: the file is
    opened for writing, and so emptied, before [content] is encoded. *)
Definition write_file (path content : str) : M unit :=
  write_pieces path [content].

Definition query_selector_all : M (list article) := fun w =>
  (Ok (default [] (head (renders w))), log EvQuery w).
Definition mouse_wheel : M unit := fun w => (Ok tt, log EvWheel (turn w)).
Definition generate (model_name : str) (parts : list str)
  : M (option str) := fun w =>
  (generate_content w model_name parts,
   log (EvGenerate model_name parts) w).

(** Settings. *)
Definition USER : str := lit "financialjuice".
Definition HOURS_BACK : Z := 24.
Definition OUT_TXT : str := lit "financialjuice_last_hours.txt".
Definition MAX_SCROLLS : nat := 80.
Definition SCROLL_WAIT_MS : Z := 1600.
Definition COOKIES_FILE : str := lit "x_cookies.json".
Definition MODEL_NAME : str := lit "gemini-1.5-flash".
Definition CUSTOM_PROMPT : str :=
  lit " Summarieze the following headlines into a concise Daily Macro & Markets Recap.
    Divide the summary into clear sections by region and country, using headings and bullet points.
    Group very very related news toghether and keep only the most relevant news for financial markets.
    Keep the summary within 2 pages maximum, and max 5 bullet points per country.
    Use the following sections, but remove those without relevant news:
    1. Euro Area (Germany, France, Italy, Spain, Greece, Portugal, Belgium, Netherlands, Austria, Ireland, Finland)
    2. Nordics (Sweden, Norway, Denmark, not Switzerland)
    3. United Kingdom
    4. Switzerland
    5. North America (only United States and Canada)
    6. APAC (only China, Japan, Australia, and New Zealand)
    Make a subsection for each country for sections including many countries, and keep max 5 bullet points per country.
    Use a headline line for each country (e.g., United States "
  ++ [8211%N]
  ++ lit " Housing soft, Fed bias tilts dovish).
    Divide every section with a horizontal line (---).".

(** [str(n)] for a length or an index. *)
Definition decimal (n : nat) : str :=
  lit (NilEmpty.string_of_uint (Nat.to_uint n)).

Section Run.

Variable fromisoformat : str -> result parsed.
(** [ZoneInfo(OUTPUT_TZ).utcoffset] at an instant, in microseconds. *)
Variable utcoffset : Z -> Z.
(** [t.strftime('%Y-%m-%d %H:%M:%S %Z')] in [OUTPUT_TZ]. *)
Variable strftime : Z -> str.

(** [for _ in range(n)], lines 100 to 129. *)
Fixpoint scroll_loop (cutoff : Z) (n : nat) (st : state) : M state :=
  match n with
  | O => mret st
  | S n' =>
      arts ← query_selector_all;
      st' ← lift (visit_all fromisoformat utcoffset cutoff arts st);
      mouse_wheel;;
      emit (EvWait SCROLL_WAIT_MS);;
      scroll_loop cutoff n' st'
  end.

(** [scrape_last_hours(user, hours_back)].  The cookies, when the
    file is there, are read and handed to the browser; what they
    change is what the page renders. *)
Definition scrape_last_hours (user : str) (hours_back : Z)
  : M (list row) :=
  now ← datetime_now;
  cutoff ← lift (cutoff_of now hours_back);
  emit EvLaunch;;
  has_cookies ← exists_file COOKIES_FILE;
  (if (has_cookies : bool) then read_file COOKIES_FILE;; mret tt
   else mret tt);;
  emit (EvGoto (lit "https://x.com/" ++ user));;
  emit (EvClick (lit "Accept"));;
  emit (EvClick (lit "I agree"));;
  emit (EvClick (lit "Allow all"));;
  st ← scroll_loop cutoff MAX_SCROLLS ([], ∅);
  emit EvClose;;
  mret (corpus utcoffset (fst st)).

(** [save_tweets_txt(rows, path)]: one [f.write] per row. *)
Definition save_tweets_txt (rows : list row) (path : str) : M unit :=
  write_pieces path
    (map (fun r => strftime (time r) ++ lit " | " ++ text r ++ BLANK) rows).

(** [require_gemini()] *)
Definition require_gemini : M unit :=
  api_key ← getenv;
  match api_key with
  | Some k =>
      if truthy k then emit (EvConfigure k)
      else raise (RuntimeError
                    (lit "Missing GOOGLE_API_KEY environment variable."))
  | None =>
      raise (RuntimeError
               (lit "Missing GOOGLE_API_KEY environment variable."))
  end.

(** [load_tweets(path)] *)
Definition load_tweets (path : str) : M str :=
  content ← read_file path;
  mret (strip content).

Definition SYSTEM : str :=
  lit "Follow the user" ++ [8217%N]
  ++ lit "s instructions exactly. Do not add extra sections beyond what they ask.".

(** [for i, ch in enumerate(chunks, 1)], with [n = len(chunks)]. *)
Fixpoint summarize_loop (custom_prompt model_name : str) (n i : nat)
         (chunks outputs : list str) : M (list str) :=
  match chunks with
  | [] => mret outputs
  | ch :: rest =>
      let prompt :=
        custom_prompt
        ++ (BLANK ++ lit "CHUNK " ++ decimal i ++ lit "/" ++ decimal n
            ++ lit " " ++ [8212%N] ++ lit " TWEETS START" ++ [LF]
            ++ lit "<<<" ++ [LF] ++ ch ++ [LF] ++ lit ">>>" ++ [LF])
        ++ lit "Return a 'generatconcise markdown summary (headings + bullet points)." in
      resp ← generate model_name [SYSTEM; prompt];
      summarize_loop custom_prompt model_name n (S i) rest
                     (outputs ++ [strip (default [] resp)])
  end.

(** [summarize_chunks(chunks, custom_prompt, model_name)] *)
Definition summarize_chunks (chunks : list str)
           (custom_prompt model_name : str) : M (list str) :=
  summarize_loop custom_prompt model_name (length chunks) 1 chunks [].

(** [final_synthesis(per_chunk, custom_prompt, model_name)] *)
Definition final_synthesis (per_chunk : list str)
           (custom_prompt model_name : str) : M str :=
  let joined :=
    join (BLANK ++ lit "--- CHUNK SPLIT ---" ++ BLANK) per_chunk in
  let prompt :=
    custom_prompt
    ++ BLANK ++ lit "You are given partial summaries of tweet batches. "
    ++ lit "Merge them into ONE well-structured Markdown document following the exact instructions above."
    ++ BLANK ++ lit "PARTIAL SUMMARIES START" ++ [LF] ++ lit "<<<" ++ [LF]
    ++ joined ++ [LF] ++ lit ">>>" ++ [LF]
    ++ lit "Return ONLY the final markdown." in
  resp ← generate model_name [prompt];
  mret (strip (default [] resp)).

(** [summarize_tweets_to_md(...)] *)
Definition summarize_tweets_to_md
           (tweets_path output_md custom_prompt model_name : str)
           (max_chars_per_chunk : Z) : M (str * Z * Z) :=
  require_gemini;;
  raw ← load_tweets tweets_path;
  if negb (truthy raw)
  then raise (ValueError (lit "Tweet file is empty: " ++ tweets_path))
  else
    let chunks := chunk_text raw max_chars_per_chunk in
    per_chunk ← summarize_chunks chunks custom_prompt model_name;
    md ← final_synthesis per_chunk custom_prompt model_name;
    write_file output_md md;;
    mret (output_md, len raw, Z.of_nat (length chunks)).

(** [main()], without what it prints. *)
Definition main : M unit :=
  rows ← scrape_last_hours USER HOURS_BACK;
  save_tweets_txt rows OUT_TXT;;
  summarize_tweets_to_md OUT_TXT (lit "summary.md") CUSTOM_PROMPT
                         MODEL_NAME 15000;;
  mret tt.

End Run.

(** [sub in s] *)
Fixpoint contains (sub s : str) : bool :=
  match s with
  | [] => startswith sub []
  | _ :: r => startswith sub s || contains sub r
  end.

Definition is_generate (ev : event) : bool :=
  match ev with EvGenerate _ _ => true | _ => false end.

End Pipeline.
Import Pipeline.

(* ================================================================== *)
(** ** Vocabulary of the properties *)
(* ================================================================== *)

Module Props.

(** *** Chunks *)

(** A block as the loop appends it: with the separator put back. *)
Definition resep (block : str) : str := block ++ BLANK.

(** What the loop guarantees of a group of blocks it closes into one
    chunk: the group is not empty, and it stays within the budget
    unless it is a single block. *)
Definition within (max_chars : Z) (g : list str) : Prop :=
  g <> [] /\ (len (concat g) <= max_chars \/ exists b, g = [b]).

(** The number of chunks still to come from a loop state, as a function
    of the sizes alone. *)
Fixpoint count_from (max_chars : Z) (sizes : list Z) (total : Z) : nat :=
  match sizes with
  | [] => if 0 <? total then 1%nat else 0%nat
  | n :: rest =>
      if (0 <? total) && (total + n >? max_chars)
      then S (count_from max_chars rest n)
      else count_from max_chars rest (total + n)
  end.

(** *** The corpus *)

(** A dict whose values sit under their own keys. *)
Definition keyed (d : list ((Z * list N) * row)) : Prop :=
  forall k v, In (k, v) d -> k = key v.

(** Keeping first occurrences: going through the rows in order, a row
    is kept when no earlier row has its key, timestamp and text.
    [earlier] holds the keys met so far. *)
Fixpoint first_occurrences (earlier : gset (Z * list N)) (rows : list row)
  : list row :=
  match rows with
  | [] => []
  | r :: rest =>
      if bool_decide (key r ∈ earlier) then first_occurrences earlier rest
      else r :: first_occurrences ({[key r]} ∪ earlier) rest
  end.

(** Newest first: each row is at least as recent as the next one. *)
Definition newest_first (out : list row) : Prop :=
  forall (i : nat) (r1 r2 : row),
    out !! i = Some r1 -> out !! S i = Some r2 -> time r2 <= time r1.

(** The wall clock of [a] is not behind that of [b]. *)
Definition wall_later_or_equal (utcoffset : Z -> Z) (a b : row) : Prop :=
  wall_clock utcoffset b <= wall_clock utcoffset a.

(** Latest wall clock first: no row shows an earlier wall clock than
    the next one. *)
Definition latest_wall_clock_first (utcoffset : Z -> Z) (out : list row)
  : Prop :=
  forall (i : nat) (r1 r2 : row),
    out !! i = Some r1 -> out !! S i = Some r2 ->
    wall_clock utcoffset r2 <= wall_clock utcoffset r1.

(** Among the rows of [out], a later instant shows a later wall clock:
    the clock of the zone was not set back between two of them. *)
Definition clock_never_set_back (utcoffset : Z -> Z) (out : list row)
  : Prop :=
  forall r1 r2, In r1 out -> In r2 out -> time r1 < time r2 ->
                wall_clock utcoffset r1 < wall_clock utcoffset r2.

Section Items.

Variable fromisoformat : str -> result parsed.

(** The article is an item of the timeline: it carries the
    identifier [href] and a timestamp that reads as the instant
    [t]. *)
Definition item (a : article) (href : str) (t : Z) : Prop :=
  exists dt_str,
    link_href a = Some (Some href) /\ href <> []
    /\ time_datetime a = Some (Some dt_str) /\ dt_str <> []
    /\ fromisoformat (replace (lit "Z") (lit "+00:00") dt_str)
       = Ok (Aware t).

(** [r] is the record of an item of the window that starts at
    [cutoff]. *)
Definition in_window (cutoff : Z) (a : article) (r : row) : Prop :=
  exists href t,
    item a href t /\ cutoff <= t /\ r = Row t (tweet_text a).

(** Within one run an identifier names one item: two renderings
    with the same [href] show the same timestamp and the same
    text. *)
Definition stable_identity (items : list article) : Prop :=
  forall a b href,
    In a items -> In b items ->
    link_href a = Some (Some href) -> link_href b = Some (Some href) ->
    time_datetime a = time_datetime b /\ tweetText a = tweetText b.

(** Every timestamp attribute on the page reads as an instant. *)
Definition readable (items : list article) : Prop :=
  forall a dt_str,
    In a items -> time_datetime a = Some (Some dt_str) -> dt_str <> [] ->
    exists t, fromisoformat (replace (lit "Z") (lit "+00:00") dt_str)
              = Ok (Aware t).

(** The items of the window can be shown in the zone: their instants
    and their wall clocks are within the years a [datetime] holds. *)
Definition convertible (utcoffset : Z -> Z) (cutoff : Z)
           (items : list article) : Prop :=
  forall a href t,
    In a items -> item a href t -> cutoff <= t ->
    astimezone utcoffset (Aware t) = Ok t.

(** What holds of the loop state once the articles [seen_so_far] have
    been gone through. *)
Definition loop_inv (cutoff : Z) (seen_so_far : list article)
             (st : state) : Prop :=
  (forall r, In r st.1 -> exists a, In a seen_so_far /\ in_window cutoff a r)
  /\ (forall h, h ∈ st.2 ->
        exists a t, In a seen_so_far /\ item a h t /\ cutoff <= t
                    /\ In (Row t (tweet_text a)) st.1)
  /\ (forall a h t, In a seen_so_far -> item a h t -> cutoff <= t ->
        h ∈ st.2).

End Items.

(** The articles a run gets to see: those of the first [MAX_SCROLLS]
    renderings. *)
Definition rendered (w : world) : list article :=
  concat (take MAX_SCROLLS (renders w)).

(** The message of the configuration error. *)
Definition MISSING_KEY : str :=
  lit "Missing GOOGLE_API_KEY environment variable.".

(** A part of the run that issues no generation request and leaves
    the environment as it is. *)
Definition no_generation {A} (m : M A) : Prop :=
  forall w,
    environ_key (snd (m w)) = environ_key w
    /\ exists evs,
        trace (snd (m w)) = trace w ++ evs
        /\ Forall (fun ev => is_generate ev = false) evs.

End Props.
Import Props.

(* ================================================================== *)
(** ** Sample values for the examples *)
(* ================================================================== *)

Module Samples.

(** A few values of [datetime.fromisoformat]; any other string is
    taken to be unreadable. *)
Definition fromisoformat (s : str) : result parsed :=
  if bool_decide (s = lit "2024-01-01T10:00:00.000+00:00")
  then Ok (Aware 1704103200000000)
  else if bool_decide (s = lit "2024-01-01T09:00:00.000+00:00")
  then Ok (Aware 1704099600000000)
  else if bool_decide (s = lit "2024-01-01T10:00:00")
  then Ok (Naive 1704103200000000)
  else if bool_decide (s = lit "2023-10-29T00:45:00.000+00:00")
  then Ok (Aware 1698540300000000)
  else if bool_decide (s = lit "2023-10-29T01:15:00.000+00:00")
  then Ok (Aware 1698542100000000)
  else Raise (ValueError (lit "Invalid isoformat string")).

(** The UTC offset of Europe/Zurich from the spring of 2023 to the
    spring of 2024: two hours until 2023-10-29 01:00 UTC, when the
    clocks went back from 03:00 to 02:00, and one hour from then on. *)
Definition zurich (t : Z) : Z :=
  if t <? 1698541200000000 then 7200000000 else 3600000000.

(** The sample instants in Europe/Zurich. *)
Definition strftime (t : Z) : str :=
  if t =? 1704103200000000 then lit "2024-01-01 11:00:00 CET"
  else if t =? 1704099600000000 then lit "2024-01-01 10:00:00 CET"
  else if t =? 1698540300000000 then lit "2023-10-29 02:45:00 CEST"
  else if t =? 1698542100000000 then lit "2023-10-29 02:15:00 CET"
  else lit "1970-01-01 01:00:00 CET".

Definition headline_a : article :=
  Article (Some (Some (lit "/financialjuice/status/1")))
          (Some (Some (lit "2024-01-01T10:00:00.000Z")))
          [lit "Headline A"].

Definition headline_b : article :=
  Article (Some (Some (lit "/financialjuice/status/2")))
          (Some (Some (lit "2024-01-01T09:00:00.000Z")))
          [lit "Headline B"].

(** An article whose timestamp attribute is not a date. *)
Definition garbled : article :=
  Article (Some (Some (lit "/financialjuice/status/3")))
          (Some (Some (lit "yesterday")))
          [lit "Headline C"].

Definition silent (model_name : str) (parts : list str)
  : result (option str) := Ok None.

(** A world at 2024-01-01 12:00 UTC whose service answers nothing and
    in which no request has been issued yet. *)
Definition world_of (api_key : option str) (fs : gmap (list N) (list N))
           (page : list (list article)) : world :=
  World api_key fs 1704110400000000 page silent [].

(** A page that shows B, then A and B, then nothing more. *)
Definition two_headlines : list (list article) :=
  [[headline_b]; [headline_a; headline_b]].

(** Two posts of the same second, neither with a text: a picture
    each, say. *)
Definition picture_a : article :=
  Article (Some (Some (lit "/financialjuice/status/5")))
          (Some (Some (lit "2024-01-01T10:00:00.000Z")))
          [].

Definition picture_b : article :=
  Article (Some (Some (lit "/financialjuice/status/6")))
          (Some (Some (lit "2024-01-01T10:00:00.000Z")))
          [].

Definition two_pictures : list (list article) := [[picture_a; picture_b]].

(** The night the clocks went back: a post at 00:45 UTC, 02:45 in
    Zurich, and one half an hour later at 01:15 UTC, 02:15 in Zurich. *)
Definition before_the_change : article :=
  Article (Some (Some (lit "/financialjuice/status/7")))
          (Some (Some (lit "2023-10-29T00:45:00.000Z")))
          [lit "Headline E"].

Definition after_the_change : article :=
  Article (Some (Some (lit "/financialjuice/status/8")))
          (Some (Some (lit "2023-10-29T01:15:00.000Z")))
          [lit "Headline F"].

(** The page of that night, newest post on top, read at noon UTC. *)
Definition night_of_the_change : world :=
  World None ∅ 1698580800000000 [[after_the_change; before_the_change]]
        silent [].

(** A text UTF-8 cannot encode: a surrogate on its own. *)
Definition lone_surrogate : str := [55296%N].

End Samples.

(* ================================================================== *)
(** ** Vocabulary of the further properties *)
(* ================================================================== *)

Module Further.

(** *** Chunks *)

(** The groups were closed greedily: each one, with the first block of
    the next, would have gone over the budget. *)
Fixpoint greedy (max_chars : Z) (gs : list (list str)) : Prop :=
  match gs with
  | g :: ((g' :: _) as rest) =>
      (exists b tl, g' = b :: tl /\ max_chars < len (concat g) + len b)
      /\ greedy max_chars rest
  | _ => True
  end.

(** *** The collection *)

#[export] Instance article_eq_dec : EqDecision article.
Proof. solve_decision. Defined.

(** The articles in the order in which they are first shown: a
    rendering of an article already in [shown] is dropped. *)
Fixpoint first_renderings (shown arts : list article) : list article :=
  match arts with
  | [] => []
  | a :: rest =>
      if bool_decide (a ∈ shown) then first_renderings shown rest
      else a :: first_renderings (a :: shown) rest
  end.

(** The identifiers on the page. *)
Definition hrefs_of (arts : list article) : gset (list N) :=
  list_to_set
    (omap (fun a => match link_href a with
                    | Some (Some href) => Some href
                    | _ => None
                    end) arts).

Section Verdict.

Variable fromisoformat : str -> result parsed.
Variable utcoffset : Z -> Z.
Variable cutoff : Z.

(** What the loop body makes of an article before it looks at [seen]:
    nothing when the identifier is missing; otherwise the identifier
    and, for an article not seen yet, the exception raised (by the
    parsing, the comparison or the change of zone), no record
    (timestamp missing or older than [cutoff]) or the record added. *)
Definition verdict (a : article) : option (str * result (option row)) :=
  match link_href a with
  | Some (Some href) =>
      if truthy href then
        Some (href,
              match time_datetime a with
              | Some (Some dt_str) =>
                  if truthy dt_str then
                    dt ← fromisoformat (replace (lit "Z") (lit "+00:00") dt_str);
                    old ← before dt cutoff;
                    if (old : bool) then Ok None
                    else
                      t ← astimezone utcoffset dt;
                      Ok (Some (Row t (tweet_text a)))
                  else Ok None
              | _ => Ok None
              end)
      else None
  | _ => None
  end.

(** The article leaves the state as it is. *)
Definition settled (st : state) (a : article) : Prop :=
  visit fromisoformat utcoffset cutoff st a = Ok st.

End Verdict.

(** *** The runs *)

(** The requests of the Collector: those to the browser, and the
    reading of the cookie file. *)
Definition is_collector_event (ev : event) : bool :=
  match ev with
  | EvLaunch | EvGoto _ | EvClick _ | EvQuery | EvWheel | EvWait _
  | EvClose => true
  | EvRead path => bool_decide (path = COOKIES_FILE)
  | _ => false
  end.

(** The requests of one turn of the scroll loop. *)
Definition scroll_events : list event :=
  [EvQuery; EvWheel; EvWait SCROLL_WAIT_MS].

(** A part of the run that changes no file, nor the environment, the
    clock or the service, and whose requests all satisfy [P]. *)
Definition confined (P : event -> bool) {A} (m : M A) : Prop :=
  forall w,
    files (snd (m w)) = files w
    /\ environ_key (snd (m w)) = environ_key w
    /\ generate_content (snd (m w)) = generate_content w
    /\ exists evs,
        trace (snd (m w)) = trace w ++ evs
        /\ Forall (fun ev => P ev = true) evs.

(** The text [save_tweets_txt] writes: one block per row. *)
Definition serialize (strftime : Z -> str) (rows : list row) : str :=
  concat (map (fun r => strftime (time r) ++ lit " | " ++ text r ++ BLANK)
              rows).

(** What [save_tweets_txt] leaves in the file: the blocks of the rows
    before the first one UTF-8 cannot encode. *)
Definition persisted (strftime : Z -> str) (rows : list row) : str :=
  concat (encodable_prefix
            (map (fun r => strftime (time r) ++ lit " | " ++ text r ++ BLANK)
                 rows)).

(** The prompt [summarize_chunks] sends for the chunk [ch], the [i]-th
    of [n]. *)
Definition map_prompt (custom_prompt : str) (n i : nat) (ch : str) : str :=
  custom_prompt
  ++ (BLANK ++ lit "CHUNK " ++ decimal i ++ lit "/" ++ decimal n
      ++ lit " " ++ [8212%N] ++ lit " TWEETS START" ++ [LF]
      ++ lit "<<<" ++ [LF] ++ ch ++ [LF] ++ lit ">>>" ++ [LF])
  ++ lit "Return a 'generatconcise markdown summary (headings + bullet points).".

(** The requests of [summarize_chunks] for chunks numbered from [i]. *)
Fixpoint map_requests (custom_prompt : str) (n i : nat) (chunks : list str)
  : list (list str) :=
  match chunks with
  | [] => []
  | ch :: rest =>
      [SYSTEM; map_prompt custom_prompt n i ch]
        :: map_requests custom_prompt n (S i) rest
  end.

(** The prompt [final_synthesis] sends. *)
Definition reduce_prompt (custom_prompt : str) (per_chunk : list str) : str :=
  custom_prompt
  ++ BLANK ++ lit "You are given partial summaries of tweet batches. "
  ++ lit "Merge them into ONE well-structured Markdown document following the exact instructions above."
  ++ BLANK ++ lit "PARTIAL SUMMARIES START" ++ [LF] ++ lit "<<<" ++ [LF]
  ++ join (BLANK ++ lit "--- CHUNK SPLIT ---" ++ BLANK) per_chunk ++ [LF]
  ++ lit ">>>" ++ [LF]
  ++ lit "Return ONLY the final markdown.".

(** [(resp.text or "").strip()] for the response to [parts], when the
    request returns. *)
Definition answer (w : world) (model_name : str) (parts : list str) : str :=
  match generate_content w model_name parts with
  | Ok reply => strip (default [] reply)
  | Raise _ => []
  end.

(** The request returns. *)
Definition answered (w : world) (model_name : str) (parts : list str) : Prop :=
  exists reply, generate_content w model_name parts = Ok reply.

End Further.
Import Further.

(* ================================================================== *)
(** ** Facts about the string operations *)
(* ================================================================== *)

Section StrFacts.

Lemma startswith_drop (p s : str) :
  startswith p s = true -> s = p ++ drop (length p) s.
Proof.
  revert s; induction p as [|a p IH]; intros [|b s]; simpl; try done.
  destruct (N.eqb_spec a b) as [->|]; [|done].
  intros H. f_equal. by apply IH.
Qed.

Lemma split_from_cons (sep : str) (k : nat) (s : str) :
  exists b bs, split_from sep k s = b :: bs.
Proof.
  revert k; induction s as [|c r IH]; intros k; simpl; [by eauto|].
  destruct k as [|k]; [|by apply IH].
  destruct (startswith sep (c :: r)); [by eauto|].
  destruct (IH 0%nat) as (b & bs & ->). by eauto.
Qed.

Lemma join_cons_cons (sep x y : str) (l : list str) :
  join sep (x :: y :: l) = x ++ sep ++ join sep (y :: l).
Proof. reflexivity. Qed.

(** Joining the pieces of a split restores the text that was split:
    [sep.join(s.split(sep)) == s]. *)
Lemma join_split_from (sep : str) (k : nat) (s : str) :
  sep <> [] -> join sep (split_from sep k s) = drop k s.
Proof.
  intros Hsep. revert k; induction s as [|c r IH]; intros k.
  - by destruct k.
  - destruct k as [|k]; cbn [split_from]; [|by rewrite IH].
    destruct (startswith sep (c :: r)) eqn:Hp.
    + destruct (split_from_cons sep (length sep - 1) r) as (b & bs & Hb).
      pose proof (IH (length sep - 1)%nat) as IH'. rewrite Hb in IH' |- *.
      rewrite join_cons_cons, IH'. simpl.
      apply startswith_drop in Hp.
      destruct sep as [|a sep]; [done|]. simpl in Hp |- *.
      rewrite Nat.sub_0_r. by symmetry.
    + destruct (split_from_cons sep 0 r) as (b & bs & Hb).
      pose proof (IH 0%nat) as IH'. rewrite Hb in IH' |- *.
      rewrite drop_0 in IH' |- *. rewrite <- IH'. by destruct bs.
Qed.

Lemma join_split (sep s : str) : sep <> [] -> join sep (split sep s) = s.
Proof. intros H. unfold split. by rewrite join_split_from. Qed.

(** Putting the separator back after every block, the last one
    included, spells the joined text followed by one more separator. *)
Lemma concat_resep (sep : str) (bs : list str) :
  bs <> [] ->
  concat (map (fun b => b ++ sep) bs) = join sep bs ++ sep.
Proof.
  induction bs as [|b [|b' bs] IH]; intros Hne; [done| |].
  - simpl. by rewrite app_nil_r.
  - rewrite join_cons_cons. cbn [map concat].
    cbn [map concat] in IH. rewrite IH by done.
    by rewrite <- !app_assoc.
Qed.

Lemma len_app (a b : str) : len (a ++ b) = len a + len b.
Proof. unfold len. rewrite length_app. lia. Qed.

Lemma len_nonneg (a : str) : 0 <= len a.
Proof. unfold len. lia. Qed.

(** ASCII text has as many bytes as characters. *)
Lemma utf8_len_ascii (s : str) :
  Forall (fun c => (c < 128)%N) s -> utf8_len s = len s.
Proof.
  induction 1 as [|c s Hc _ IH]; [done|].
  cbn [utf8_len fold_right]. fold (utf8_len s). rewrite IH.
  unfold utf8_width. apply N.ltb_lt in Hc. rewrite Hc.
  unfold len. cbn [length]. lia.
Qed.

End StrFacts.

(* ================================================================== *)
(** ** Facts about the chunking loop *)
(* ================================================================== *)

Section ChunkFacts.

Variable max_chars : Z.

Lemma truthy_false {A} (l : list A) : truthy l = false <-> l = [].
Proof. destruct l; split; done. Qed.

Lemma truthy_true {A} (l : list A) : truthy l = true <-> l <> [].
Proof. destruct l; split; done. Qed.

(** The loop cuts the sequence of blocks into consecutive groups; the
    chunks are the groups, each flattened. *)
Lemma chunk_loop_groups (blocks chunks cur : list str) (total : Z) :
  total = len (concat cur) ->
  (len (concat cur) <= max_chars \/ (length cur <= 1)%nat) ->
  exists gs : list (list str),
    chunk_loop max_chars blocks chunks cur total = chunks ++ map (fun g => concat g) gs
    /\ concat gs = cur ++ map resep blocks
    /\ Forall (within max_chars) gs.
Proof.
  revert chunks cur total.
  induction blocks as [|block rest IH]; intros chunks cur total Ht Hcur.
  - cbn [chunk_loop map]. rewrite app_nil_r.
    destruct cur as [|c cur'] eqn:E; cbn [truthy].
    + exists []. by rewrite app_nil_r.
    + exists [c :: cur']. cbn [map concat]. rewrite app_nil_r.
      split_and!; [done|done|]. constructor; [|done].
      split; [done|]. destruct Hcur as [H|H]; [by left|right].
      destruct cur'; [by eauto|simpl in H; lia].
  - cbn [chunk_loop]. fold (resep block).
    destruct (truthy cur && (total + len (resep block) >? max_chars))
      eqn:Hflush.
    + apply andb_prop in Hflush as [Hne Hover].
      apply truthy_true in Hne.
      destruct (IH (chunks ++ [concat cur]) [resep block]
                   (0 + len (resep block))) as (gs & Hrun & Hcat & Hall).
      { cbn [concat]. rewrite app_nil_r. lia. }
      { right. simpl. lia. }
      exists (cur :: gs). rewrite Hrun. cbn [map concat]. rewrite Hcat.
      split_and!; [by rewrite <- app_assoc|done|].
      constructor; [|done]. split; [done|].
      destruct Hcur as [H|H]; [by left|right].
      destruct cur as [|c [|c' cur']]; [done|by eauto|simpl in H; lia].
    + destruct (IH chunks (cur ++ [resep block])
                   (total + len (resep block))) as (gs & Hrun & Hcat & Hall).
      { rewrite concat_app, len_app. cbn [concat].
        rewrite app_nil_r. lia. }
      { apply andb_false_iff in Hflush as [Hemp|Hfit].
        - apply truthy_false in Hemp. subst cur. right. simpl. lia.
        - left. rewrite concat_app, len_app. cbn [concat].
          rewrite app_nil_r. lia. }
      exists gs. rewrite Hrun, Hcat. split_and!; [done| |done].
      by rewrite <- app_assoc.
Qed.

(** The number of chunks depends on the sizes of the blocks only. *)
Lemma chunk_loop_length (blocks chunks cur : list str) (total : Z) :
  (cur = [] /\ total = 0) \/ (cur <> [] /\ 0 < total) ->
  length (chunk_loop max_chars blocks chunks cur total)
  = (length chunks
     + count_from max_chars (map (fun b => len (resep b)) blocks) total)%nat.
Proof.
  revert chunks cur total.
  induction blocks as [|block rest IH]; intros chunks cur total Hinv.
  - cbn [chunk_loop map count_from].
    destruct Hinv as [[-> ->]|[Hne Hpos]].
    + simpl. lia.
    + apply truthy_true in Hne. rewrite Hne.
      apply Z.ltb_lt in Hpos. rewrite Hpos, length_app. simpl. lia.
  - cbn [chunk_loop map count_from]. fold (resep block).
    assert (Hsz : 0 < len (resep block)).
    { unfold resep. rewrite len_app. pose proof (len_nonneg block).
      unfold BLANK, len at 2. simpl. lia. }
    assert (Hb : truthy cur = (0 <? total)).
    { destruct Hinv as [[-> ->]|[Hne Hpos]]; [done|].
      apply truthy_true in Hne. apply Z.ltb_lt in Hpos. congruence. }
    rewrite Hb.
    destruct ((0 <? total) && (total + len (resep block) >? max_chars)).
    + rewrite IH by (right; split; [done|lia]).
      rewrite length_app, Z.add_0_l. simpl. lia.
    + rewrite IH; [done|]. right. split; [by destruct cur|].
      destruct Hinv as [[_ ->]|[_ ?]]; lia.
Qed.

End ChunkFacts.

(** A smaller budget, or a fuller accumulator, never saves a chunk; and
    whatever the two accumulators hold, the generous budget is at most
    one chunk behind. *)
Lemma count_from_mono (B1 B2 : Z) (sizes : list Z) :
  B1 <= B2 -> Forall (fun n => 0 < n) sizes ->
  (forall t1 t2, 0 <= t2 <= t1 ->
     (count_from B2 sizes t2 <= count_from B1 sizes t1)%nat)
  /\ (forall t1 t2, 0 <= t1 -> 0 <= t2 ->
     (count_from B2 sizes t2 <= S (count_from B1 sizes t1))%nat).
Proof.
  intros HB Hpos. induction Hpos as [|n rest Hn _ [IH1 IH2]].
  - split; intros t1 t2 ?; simpl.
    + destruct (Z.ltb_spec 0 t2), (Z.ltb_spec 0 t1); lia.
    + intros _. destruct (0 <? t2), (0 <? t1); lia.
  - split; intros t1 t2 H1; [|intros H2]; cbn [count_from].
    + destruct (Z.ltb_spec 0 t2), (Z.ltb_spec 0 t1),
        (Z.gtb_spec (t2 + n) B2), (Z.gtb_spec (t1 + n) B1);
        cbn [andb]; try lia;
        first [ apply le_n_S, IH1; lia | apply IH2; lia | apply IH1; lia ].
    + destruct (Z.ltb_spec 0 t2), (Z.ltb_spec 0 t1),
        (Z.gtb_spec (t2 + n) B2), (Z.gtb_spec (t1 + n) B1);
        cbn [andb];
        first [ apply le_n_S, IH1; lia
              | apply le_S, le_n_S, IH1; lia
              | apply IH2; lia
              | apply le_S, IH2; lia ].
Qed.

(* ================================================================== *)
(** ** The Chunker's properties *)
(* ================================================================== *)

Lemma len_concat_elem (b : str) (g : list str) :
  In b g -> len b <= len (concat g).
Proof.
  induction g as [|x g IH]; [done|]. cbn [concat]. rewrite len_app.
  pose proof (len_nonneg x). pose proof (len_nonneg (concat g)).
  intros [->|Hin]; [lia|]. specialize (IH Hin). lia.
Qed.

Lemma chunk_text_partition (s : str) (max_chars : Z) :
  exists gs : list (list str),
    chunk_text s max_chars = map (fun g => concat g) gs
    /\ concat gs = map resep (split BLANK (replace CRLF NL s))
    /\ Forall (within max_chars) gs.
Proof.
  unfold chunk_text.
  destruct (chunk_loop_groups max_chars (split BLANK (replace CRLF NL s))
              [] [] 0) as (gs & Hrun & Hcat & Hall);
    [done|right; simpl; lia|].
  exists gs. by rewrite Hrun, Hcat.
Qed.

Lemma BLANK_nonempty : BLANK <> [].
Proof. done. Qed.

Lemma split_nonempty (sep s : str) : split sep s <> [].
Proof.
  unfold split. by destruct (split_from_cons sep 0 s) as (b & bs & ->).
Qed.

(** Whatever the loop decides to close, it loses and repeats nothing. *)
Lemma chunk_loop_flat (max_chars : Z) (blocks chunks cur : list str)
      (total : Z) :
  concat (chunk_loop max_chars blocks chunks cur total)
  = concat chunks ++ concat cur ++ concat (map resep blocks).
Proof.
  revert chunks cur total.
  induction blocks as [|block rest IH]; intros chunks cur total.
  - cbn [chunk_loop map concat]. rewrite app_nil_r.
    destruct cur as [|c cur]; cbn [truthy]; [by rewrite app_nil_r|].
    rewrite concat_app. cbn [concat]. by rewrite app_nil_r.
  - cbn [chunk_loop map concat]. fold (resep block).
    destruct (truthy cur && (total + len (resep block) >? max_chars)).
    + rewrite IH, concat_app. cbn [concat].
      by rewrite !app_nil_r, <- !app_assoc.
    + rewrite IH, concat_app. cbn [concat].
      by rewrite !app_nil_r, <- !app_assoc.
Qed.

(** C1, as stated, fails: the one chunk of ["a"] is ["a\n\n"], two
    characters longer than the input. *)
Lemma concat_of_chunks_is_not_the_input :
  1 <= 10 /\ concat (chunk_text (lit "a") 10) <> lit "a".
Proof. split; [lia|]. vm_compute. discriminate. Qed.

(** C1, amended: for every input text and every budget, the chunks of
    [chunk_text], concatenated in order, spell the input with each
    ["\r\n"] replaced by ["\n"], followed by one blank-line separator
    ["\n\n"]: the loop puts the separator back after every block, the
    last one included. *)
Theorem chunk_text_concat (s : str) (max_chars : Z) :
  concat (chunk_text s max_chars) = replace CRLF NL s ++ BLANK.
Proof.
  unfold chunk_text. rewrite chunk_loop_flat. cbn [concat app].
  unfold resep. rewrite concat_resep by apply split_nonempty.
  f_equal. apply join_split, BLANK_nonempty.
Qed.

(** C4, as stated in bytes, fails: with a budget of 6 the text
    ["é\n\né"] gives one chunk made of the two blocks ["é\n\n"] and
    ["é\n\n"]; it has 6 characters and 8 bytes in UTF-8. *)
Lemma chunk_of_two_blocks_over_budget_in_bytes :
  let s := [233; 10; 10; 233]%N in
  split BLANK (replace CRLF NL s) = [[233%N]; [233%N]]
  /\ chunk_text s 6 = [resep [233%N] ++ resep [233%N]]
  /\ 6 < utf8_len (resep [233%N] ++ resep [233%N]).
Proof. vm_compute. split_and!; done. Qed.

(** C4, amended: sizes are counted as [len] counts them, in characters
    (code points).  For every input text and budget, the chunks are the
    consecutive groups of a partition of the sequence of blocks (each
    block with its separator put back); no group is empty; every group
    of two or more blocks has at most [max_chars] characters, so a chunk
    with more than [max_chars] characters is exactly one block; and a
    block with more than [max_chars] characters is a chunk by itself.
    A chunk of ASCII text has as many bytes as characters. *)
Theorem chunk_text_budget (s : str) (max_chars : Z) :
  let blocks := map resep (split BLANK (replace CRLF NL s)) in
  (exists gs : list (list str),
      chunk_text s max_chars = map (fun g => concat g) gs
      /\ concat gs = blocks
      /\ Forall (fun g => g <> []
                   /\ (max_chars < len (concat g) -> exists b, g = [b]))
                gs)
  /\ (forall c, In c (chunk_text s max_chars) ->
        max_chars < len c -> In c blocks)
  /\ (forall b, In b blocks -> max_chars < len b ->
        In b (chunk_text s max_chars))
  /\ (forall c, In c (chunk_text s max_chars) ->
        Forall (fun x => (x < 128)%N) c -> utf8_len c = len c).
Proof.
  intros blocks.
  destruct (chunk_text_partition s max_chars) as (gs & Hrun & Hcat & Hall).
  fold blocks in Hcat. split_and!.
  - exists gs. split_and!; [done|done|].
    eapply Forall_impl; [exact Hall|]. intros g [Hne Hfit].
    split; [done|]. intros Hbig. destruct Hfit as [?|?]; [lia|done].
  - intros c Hc Hbig. rewrite Hrun in Hc.
    apply in_map_iff in Hc as (g & <- & Hg).
    rewrite Forall_forall in Hall.
    destruct (Hall g) as [_ [?|[b ->]]];
      [by apply list_elem_of_In|lia|].
    rewrite <- Hcat. apply in_concat. exists [b].
    split; [done|]. cbn [concat]. rewrite app_nil_r. by left.
  - intros b Hb Hbig. rewrite <- Hcat in Hb.
    apply in_concat in Hb as (g & Hg & Hbg).
    rewrite Forall_forall in Hall.
    pose proof (len_concat_elem b g Hbg) as Hle.
    destruct (Hall g) as [_ [?|[b' ->]]];
      [by apply list_elem_of_In|lia|].
    destruct Hbg as [->|[]]. rewrite Hrun.
    apply in_map_iff. exists [b]. split; [|done].
    cbn [concat]. by rewrite app_nil_r.
  - intros c _. apply utf8_len_ascii.
Qed.

Lemma chunk_text_budget_witness :
  let s := lit "aaaa" ++ BLANK ++ lit "b" in
  3 < len (resep (lit "aaaa"))
  /\ In (resep (lit "aaaa")) (chunk_text s 3).
Proof.
  intros s. split; [vm_compute; reflexivity|].
  destruct (chunk_text_budget s 3) as (_ & _ & Halone & _).
  apply Halone; [vm_compute; by left|vm_compute; reflexivity].
Defined.

(** C8: for every text and all budgets [B1 < B2], [chunk_text] makes at
    least as many chunks with [B1] as with [B2]. *)
Theorem chunk_count_monotone (s : str) (B1 B2 : Z) :
  B1 < B2 ->
  (length (chunk_text s B2) <= length (chunk_text s B1))%nat.
Proof.
  intros HB. unfold chunk_text.
  rewrite !chunk_loop_length by (by left).
  apply (count_from_mono B1 B2); [lia| |lia].
  apply Forall_forall. intros n Hn.
  apply list_elem_of_In, in_map_iff in Hn as (b & <- & _).
  unfold resep. rewrite len_app. pose proof (len_nonneg b).
  unfold BLANK, len at 2. simpl. lia.
Qed.

Lemma chunk_count_monotone_witness :
  3 < 6
  /\ (length (chunk_text (lit "a" ++ BLANK ++ lit "b") 6)
      <= length (chunk_text (lit "a" ++ BLANK ++ lit "b") 3))%nat.
Proof.
  split; [lia|].
  apply (chunk_count_monotone (lit "a" ++ BLANK ++ lit "b") 3 6). lia.
Defined.

(** C10: for every input string and every [max_chars], [chunk_text]
    returns a non-empty list, every chunk of which ends with ["\n\n"];
    the empty string gives the single chunk ["\n\n"]; and the chunks are
    made from the text with ["\r\n"] replaced by ["\n"]: two inputs with
    the same normalised text give the same chunks, which spell that
    normalised text. *)
Theorem chunk_text_shape (s : str) (max_chars : Z) :
  chunk_text s max_chars <> []
  /\ Forall (fun c => exists p, c = p ++ BLANK) (chunk_text s max_chars)
  /\ chunk_text [] max_chars = [BLANK]
  /\ (forall s', replace CRLF NL s' = replace CRLF NL s ->
        chunk_text s' max_chars = chunk_text s max_chars)
  /\ concat (chunk_text s max_chars) = replace CRLF NL s ++ BLANK
  /\ chunk_text (lit "a" ++ CRLF ++ lit "b") max_chars
     = [lit "a" ++ NL ++ lit "b" ++ BLANK].
Proof.
  destruct (chunk_text_partition s max_chars) as (gs & Hrun & Hcat & Hall).
  split_and!.
  - rewrite Hrun. destruct gs as [|g gs]; [|done].
    symmetry in Hcat. apply map_eq_nil in Hcat.
    by apply split_nonempty in Hcat.
  - rewrite Hrun. apply Forall_forall. intros c Hc.
    apply list_elem_of_In, in_map_iff in Hc as (g & <- & Hg).
    rewrite Forall_forall in Hall.
    destruct (Hall g) as [Hne _]; [by apply list_elem_of_In|].
    assert (Hends : forall b, In b g -> exists p, b = p ++ BLANK).
    { intros b Hb.
      assert (Hin : In b (concat gs)) by (apply in_concat; eauto).
      rewrite Hcat in Hin. apply in_map_iff in Hin as (p & <- & _).
      by exists p. }
    clear Hg. induction g as [|b g IH] using rev_ind; [done|].
    destruct (Hends b) as [p ->]; [apply in_or_app; right; by left|].
    exists (concat g ++ p). rewrite concat_app. cbn [concat].
    by rewrite app_nil_r, app_assoc.
  - reflexivity.
  - intros s' Heq. unfold chunk_text. by rewrite Heq.
  - unfold chunk_text. rewrite chunk_loop_flat. cbn [concat app].
    unfold resep. rewrite concat_resep by apply split_nonempty.
    by rewrite join_split by apply BLANK_nonempty.
  - unfold chunk_text. cbn.
    destruct (0 + 6 >? max_chars); reflexivity.
Qed.

Lemma chunk_text_shape_witness :
  chunk_text (lit "a" ++ CRLF ++ lit "b") 100
  = chunk_text (lit "a" ++ NL ++ lit "b") 100.
Proof.
  destruct (chunk_text_shape (lit "a" ++ NL ++ lit "b") 100)
    as (_ & _ & _ & Hsame & _ & _).
  apply Hsame. vm_compute. reflexivity.
Defined.

(* ================================================================== *)
(** ** Facts about the final dedupe and sort *)
(* ================================================================== *)

Section CorpusFacts.

Lemma key_inj (r1 r2 : row) : key r1 = key r2 -> r1 = r2.
Proof. destruct r1, r2. unfold key. simpl. by intros [= -> ->]. Qed.

Lemma dict_set_present (d : list ((Z * list N) * row)) (r : row) :
  keyed d -> In (key r) (map fst d) -> dict_set d (key r) r = d.
Proof.
  induction d as [|[k v] d IH]; intros Hk Hin; [done|].
  cbn [dict_set]. destruct (decide (k = key r)) as [->|Hne].
  - f_equal. f_equal. apply key_inj. apply (Hk (key r) v). by left.
  - f_equal. apply IH.
    + intros k' v' H'. apply Hk. by right.
    + destruct Hin as [Hin|Hin]; [done|exact Hin].
Qed.

Lemma dict_set_absent {V} (d : list ((Z * list N) * V)) k (v : V) :
  ~ In k (map fst d) -> dict_set d k v = d ++ [(k, v)].
Proof.
  induction d as [|[k' v'] d IH]; intros Hin; [done|].
  cbn [dict_set]. destruct (decide (k' = k)) as [->|Hne].
  - exfalso. apply Hin. by left.
  - cbn [app]. f_equal. apply IH. intros H. apply Hin. by right.
Qed.

Lemma dict_fold_first (rows : list row) (d : list ((Z * list N) * row)) :
  keyed d ->
  map snd (fold_left (fun d r => dict_set d (key r) r) rows d)
  = map snd d ++ first_occurrences (list_to_set (map fst d)) rows.
Proof.
  revert d. induction rows as [|r rows IH]; intros d Hk.
  - simpl. by rewrite app_nil_r.
  - cbn [fold_left first_occurrences]. case_bool_decide as Hin.
    + rewrite elem_of_list_to_set, list_elem_of_In in Hin.
      rewrite dict_set_present by done. by apply IH.
    + rewrite elem_of_list_to_set, list_elem_of_In in Hin.
      rewrite dict_set_absent by done. rewrite IH.
      * rewrite !map_app, list_to_set_app_L. cbn [map fst snd].
        rewrite <- app_assoc. cbn [app list_to_set].
        by rewrite (right_id_L ∅ (∪)), (comm_L (∪)).
      * intros k v Hkv. apply in_app_or in Hkv as [Hkv|[Hkv|[]]];
          [by apply Hk|congruence].
Qed.

(** The dict comprehension keeps the first row of every key. *)
Lemma dedupe_first (rows : list row) :
  dedupe rows = first_occurrences ∅ rows.
Proof. unfold dedupe. rewrite dict_fold_first; [done|]. by intros k v []. Qed.

Lemma first_occurrences_In (earlier : gset (Z * list N)) rows r :
  In r (first_occurrences earlier rows) <-> In r rows /\ key r ∉ earlier.
Proof.
  revert earlier. induction rows as [|x rows IH]; intros earlier.
  - simpl. tauto.
  - cbn [first_occurrences]. case_bool_decide as Hin.
    + rewrite IH. split.
      * intros [? ?]. split; [by right|done].
      * intros [[->|?] ?]; [done|by split].
    + cbn [In]. rewrite IH. split.
      * intros [->|[? Hn]]; [split; [by left|done]|].
        split; [by right|]. intros Hu. apply Hn. by apply elem_of_union_r.
      * intros [[->|Hr] Hn]; [by left|].
        destruct (decide (x = r)) as [->|Hne]; [by left|right].
        split; [done|]. intros Hu.
        apply elem_of_union in Hu as [Hu|Hu]; [|done].
        apply elem_of_singleton in Hu. by apply key_inj in Hu.
Qed.

Lemma first_occurrences_NoDup (earlier : gset (Z * list N)) rows :
  NoDup (map key (first_occurrences earlier rows)).
Proof.
  revert earlier. induction rows as [|x rows IH]; intros earlier.
  - constructor.
  - cbn [first_occurrences]. case_bool_decide as Hin; [apply IH|].
    cbn [map]. constructor; [|apply IH].
    rewrite list_elem_of_In, in_map_iff. intros (r & Hk & Hr).
    apply first_occurrences_In in Hr as [_ Hr]. apply Hr.
    rewrite Hk. by apply elem_of_union_l, elem_of_singleton.
Qed.

Lemma first_occurrences_id (earlier : gset (Z * list N)) rows :
  NoDup rows -> (forall r, In r rows -> key r ∉ earlier) ->
  first_occurrences earlier rows = rows.
Proof.
  revert earlier. induction rows as [|x rows IH]; intros earlier Hnd Hout;
    [done|].
  apply NoDup_cons in Hnd as [Hx Hnd]. cbn [first_occurrences].
  rewrite bool_decide_eq_false_2 by (apply Hout; by left).
  f_equal. apply IH; [done|]. intros r Hr Hu.
  apply elem_of_union in Hu as [Hu|Hu].
  - apply elem_of_singleton, key_inj in Hu. subst r.
    by apply list_elem_of_In in Hr.
  - by apply (Hout r); [right|].
Qed.

Variable utcoffset : Z -> Z.

Local Abbreviation wall_clock := (wall_clock utcoffset).
Local Abbreviation insert_desc := (insert_desc utcoffset).
Local Abbreviation sort_desc := (sort_desc utcoffset).
Local Abbreviation corpus := (corpus utcoffset).
Local Abbreviation wall_later_or_equal := (wall_later_or_equal utcoffset).

Lemma insert_desc_In (r x : row) (l : list row) :
  In x (insert_desc r l) <-> x = r \/ In x l.
Proof.
  induction l as [|y l IH]; simpl; [intuition congruence|].
  destruct (wall_clock y <=? wall_clock r); simpl; [intuition congruence|].
  rewrite IH. intuition congruence.
Qed.

Lemma sort_desc_In (x : row) (l : list row) :
  In x (sort_desc l) <-> In x l.
Proof.
  induction l as [|y l IH]; simpl; [done|].
  rewrite insert_desc_In, IH. intuition congruence.
Qed.

Lemma insert_desc_sorted (r : row) (l : list row) :
  Sorted wall_later_or_equal l -> Sorted wall_later_or_equal (insert_desc r l).
Proof.
  induction 1 as [|x l Hs IH Hhd]; simpl; [by repeat constructor|].
  destruct (Z.leb_spec (wall_clock x) (wall_clock r)) as [Hle|Hgt].
  - constructor; [by constructor|]. by constructor.
  - constructor; [done|].
    destruct l as [|y l]; simpl.
    + constructor. unfold Props.wall_later_or_equal. lia.
    + destruct (wall_clock y <=? wall_clock r).
      * constructor. unfold Props.wall_later_or_equal. lia.
      * constructor. by inversion Hhd.
Qed.

Lemma sort_desc_sorted (l : list row) :
  Sorted wall_later_or_equal (sort_desc l).
Proof.
  induction l as [|r l IH]; simpl; [constructor|].
  by apply insert_desc_sorted.
Qed.

Lemma sorted_latest_wall_clock_first (l : list row) :
  Sorted wall_later_or_equal l -> latest_wall_clock_first utcoffset l.
Proof.
  induction 1 as [|x l Hs IH Hhd]; intros i r1 r2 H1 H2; [done|].
  destruct i as [|i]; simpl in H1, H2.
  - injection H1 as ->. destruct l as [|y l]; [done|].
    simpl in H2. injection H2 as ->. by inversion Hhd.
  - by apply (IH i).
Qed.

(** Where the clock was not set back, the latest wall clock is the
    latest instant. *)
Lemma latest_wall_clock_newest (l : list row) :
  clock_never_set_back utcoffset l ->
  latest_wall_clock_first utcoffset l -> newest_first l.
Proof.
  intros Hclock Hwall i r1 r2 H1 H2.
  destruct (Z.le_gt_cases (time r2) (time r1)) as [Hle|Hgt]; [done|].
  exfalso. specialize (Hwall i r1 r2 H1 H2).
  apply list_elem_of_lookup_2, list_elem_of_In in H1, H2.
  specialize (Hclock r1 r2 H1 H2 Hgt). lia.
Qed.

Lemma corpus_In (rows : list row) (r : row) :
  In r (corpus rows) <-> In r rows.
Proof.
  unfold corpus. rewrite sort_desc_In, dedupe_first, first_occurrences_In.
  split; [by intros [? _]|]. intros Hr. split; [done|].
  apply not_elem_of_empty.
Qed.

Lemma corpus_latest_wall_clock_first (rows : list row) :
  latest_wall_clock_first utcoffset (corpus rows).
Proof. apply sorted_latest_wall_clock_first, sort_desc_sorted. Qed.

Lemma insert_desc_perm (r : row) (l : list row) : insert_desc r l ≡ₚ r :: l.
Proof.
  induction l as [|x l IH]; [done|]. cbn [insert_desc].
  destruct (wall_clock x <=? wall_clock r); [done|].
  by rewrite IH, Permutation_swap.
Qed.

Lemma sort_desc_perm (l : list row) : sort_desc l ≡ₚ l.
Proof.
  induction l as [|r l IH]; [done|]. cbn [sort_desc].
  by rewrite insert_desc_perm, IH.
Qed.

Lemma insert_desc_same_time (t : Z) (r : row) (l : list row) :
  filter (fun x => time x = t) (insert_desc r l)
  = filter (fun x => time x = t) (r :: l).
Proof.
  induction l as [|x l IH]; [done|]. cbn [insert_desc].
  destruct (Z.leb_spec (wall_clock x) (wall_clock r)) as [Hle|Hgt]; [done|].
  rewrite filter_cons, IH, !filter_cons.
  destruct (decide (time x = t)) as [Hx|Hx];
    destruct (decide (time r = t)) as [Hr|Hr]; try done.
  unfold Collector.wall_clock in Hgt. rewrite Hx, Hr in Hgt. lia.
Qed.

Lemma sort_desc_same_time (t : Z) (l : list row) :
  filter (fun x => time x = t) (sort_desc l) = filter (fun x => time x = t) l.
Proof.
  induction l as [|r l IH]; [done|]. cbn [sort_desc].
  by rewrite insert_desc_same_time, !filter_cons, IH.
Qed.

Lemma first_occurrences_length (earlier : gset (Z * list N)) (rows : list row) :
  (length (first_occurrences earlier rows) <= length rows)%nat.
Proof.
  revert earlier. induction rows as [|r rows IH]; intros earlier; [done|].
  cbn [first_occurrences]. case_bool_decide; simpl.
  - specialize (IH earlier). lia.
  - specialize (IH ({[key r]} ∪ earlier)). lia.
Qed.

Lemma corpus_length (rows : list row) :
  (length (corpus rows) <= length rows)%nat.
Proof.
  unfold Collector.corpus. rewrite (Permutation_length (sort_desc_perm _)).
  rewrite dedupe_first. apply first_occurrences_length.
Qed.

(** A deduplication that drops nothing had nothing to drop. *)
Lemma first_occurrences_full (earlier : gset (Z * list N)) (rows : list row) :
  length (first_occurrences earlier rows) = length rows ->
  first_occurrences earlier rows = rows.
Proof.
  revert earlier. induction rows as [|r rows IH]; intros earlier; [done|].
  cbn [first_occurrences]. case_bool_decide; cbn [length].
  - pose proof (first_occurrences_length earlier rows). lia.
  - intros [= Hlen]. f_equal. by apply IH.
Qed.

Lemma dedupe_NoDup (rows : list row) : NoDup (dedupe rows).
Proof.
  apply (NoDup_fmap_1 key). rewrite dedupe_first.
  apply first_occurrences_NoDup.
Qed.

(** The dict comprehension changes nothing exactly when no row is
    there twice. *)
Lemma dedupe_id (rows : list row) : NoDup rows <-> dedupe rows = rows.
Proof.
  split.
  - intros Hnd. rewrite dedupe_first. apply first_occurrences_id; [done|].
    intros r _. apply not_elem_of_empty.
  - intros <-. apply dedupe_NoDup.
Qed.

Lemma corpus_NoDup (rows : list row) : NoDup (corpus rows).
Proof. unfold Collector.corpus. rewrite sort_desc_perm. apply dedupe_NoDup. Qed.

Lemma corpus_keys_NoDup (rows : list row) : NoDup (map key (corpus rows)).
Proof.
  unfold Collector.corpus.
  rewrite (fmap_Permutation key _ _ (sort_desc_perm (dedupe rows))).
  rewrite dedupe_first. apply first_occurrences_NoDup.
Qed.

(** The output is as long as the rows exactly when no row is there
    twice. *)
Lemma corpus_full (rows : list row) :
  NoDup rows <-> length (corpus rows) = length rows.
Proof.
  unfold Collector.corpus. rewrite (Permutation_length (sort_desc_perm _)).
  split.
  - intros Hnd. apply dedupe_id in Hnd. by rewrite Hnd.
  - rewrite dedupe_first. intros Hlen. apply dedupe_id.
    rewrite dedupe_first. by apply first_occurrences_full.
Qed.

End CorpusFacts.

(* ================================================================== *)
(** ** Facts about the collection loop *)
(* ================================================================== *)

(** The cutoff, when line 71 returns one. *)
Lemma cutoff_of_Ok (now hours_back cutoff : Z) :
  cutoff_of now hours_back = Ok cutoff -> cutoff = now - hours hours_back.
Proof.
  unfold cutoff_of, timedelta, minus.
  destruct (_ && _); cbn; [|done].
  destruct (in_range _); [|done]. by intros [= <-].
Qed.

(** A change of zone that returns keeps the instant. *)
Lemma astimezone_Ok (utcoffset : Z -> Z) (t t' : Z) :
  astimezone utcoffset (Aware t) = Ok t' -> t' = t.
Proof.
  unfold astimezone. destruct (_ && _); [|done]. by intros [= <-].
Qed.

Section LoopFacts.

Variable fromisoformat : str -> result parsed.
Variable utcoffset : Z -> Z.
Variable cutoff : Z.

Local Abbreviation visit := (visit fromisoformat utcoffset cutoff).
Local Abbreviation visit_all := (visit_all fromisoformat utcoffset cutoff).
Local Abbreviation item := (item fromisoformat).
Local Abbreviation in_window := (in_window fromisoformat cutoff).
Local Abbreviation loop_inv := (loop_inv fromisoformat cutoff).

Lemma item_fun (a : article) (h1 h2 : str) (t1 t2 : Z) :
  item a h1 t1 -> item a h2 t2 -> h1 = h2 /\ t1 = t2.
Proof.
  intros (d1 & Hl1 & _ & Hd1 & _ & Hp1) (d2 & Hl2 & _ & Hd2 & _ & Hp2).
  split; congruence.
Qed.

(** One article either leaves the state alone, and then it is no new
    item of the window, or it is one and its record and identifier
    are added. *)
Lemma visit_Ok (rows : list row) (seen : gset (list N)) (a : article)
      (st' : state) :
  visit (rows, seen) a = Ok st' ->
  (st' = (rows, seen)
   /\ forall href t, item a href t -> cutoff <= t -> href ∈ seen)
  \/ (exists href t,
        item a href t /\ cutoff <= t /\ (href ∉ seen)
        /\ st' = (rows ++ [Row t (tweet_text a)], {[href]} ∪ seen)).
Proof.
  unfold visit, Collector.visit.
  destruct (link_href a) as [[href|]|] eqn:Hl;
    try (intros [= <-]; left; split; [done|];
         by intros h t (d & ? & _); congruence).
  destruct (truthy href) eqn:Hh; cbn [negb orb]; cycle 1.
  { apply truthy_false in Hh. intros [= <-]. left. split; [done|].
    intros h t (d & ? & ? & _). congruence. }
  apply truthy_true in Hh.
  case_bool_decide as Hseen.
  { intros [= <-]. left. split; [done|].
    intros h t (d & ? & _). congruence. }
  destruct (time_datetime a) as [[dt_str|]|] eqn:Ht;
    try (intros [= <-]; left; split; [done|];
         by intros h t (d & _ & _ & ? & _); congruence).
  destruct (truthy dt_str) eqn:Hd; cbn [negb]; cycle 1.
  { apply truthy_false in Hd. intros [= <-]. left. split; [done|].
    intros h t (d & _ & _ & ? & ? & _). congruence. }
  apply truthy_true in Hd.
  destruct (fromisoformat (replace (lit "Z") (lit "+00:00") dt_str))
    as [[t0|t0]|e] eqn:Hp; cbn -[astimezone]; [|done|done].
  destruct (Z.ltb_spec t0 cutoff) as [Hold|Hnew].
  - intros [= <-]. left. split; [done|].
    intros h t (d & _ & _ & ? & _ & Hp') ?.
    assert (t = t0) by congruence. lia.
  - destruct (astimezone utcoffset (Aware t0)) as [t1|e] eqn:Hzone;
      cbn; [|done].
    apply astimezone_Ok in Hzone as ->.
    intros [= <-]. right. exists href, t0. split_and!; try done.
    by exists dt_str.
Qed.

Lemma visit_readable (st : state) (a : article) :
  (forall dt_str, time_datetime a = Some (Some dt_str) -> dt_str <> [] ->
     exists t, fromisoformat (replace (lit "Z") (lit "+00:00") dt_str)
               = Ok (Aware t)) ->
  (forall href t, item a href t -> cutoff <= t ->
     astimezone utcoffset (Aware t) = Ok t) ->
  exists st', visit st a = Ok st'.
Proof.
  intros Hread Hzone. destruct st as [rows seen]. unfold Collector.visit.
  destruct (link_href a) as [[href|]|] eqn:Hl; [|by eauto..].
  destruct (truthy href) eqn:Hh; cbn [negb orb]; [|by eauto].
  apply truthy_true in Hh.
  destruct (bool_decide (href ∈ seen)); [by eauto|].
  destruct (time_datetime a) as [[dt_str|]|] eqn:Ht; [|by eauto..].
  destruct dt_str as [|c d] eqn:Hd; cbn [truthy negb]; [by eauto|].
  destruct (Hread (c :: d)) as [t Hp]; [done|done|].
  rewrite Hp. cbn -[astimezone].
  destruct (Z.ltb_spec t cutoff) as [Hold|Hnew]; [by eauto|].
  rewrite (Hzone href t); [by eauto| |done].
  by exists (c :: d).
Qed.

Lemma visit_all_app (xs ys : list article) (st : state) :
  visit_all (xs ++ ys) st = (visit_all xs st ≫= visit_all ys).
Proof.
  revert st. induction xs as [|a xs IH]; intros st; [done|].
  cbn [app Collector.visit_all].
  destruct (visit st a) as [st1|e]; cbn; [apply IH|done].
Qed.

Lemma visit_all_readable (items : list article) (st : state) :
  readable fromisoformat items -> convertible fromisoformat utcoffset cutoff items ->
  exists st', visit_all items st = Ok st'.
Proof.
  revert st. induction items as [|a items IH]; intros st Hread Hzone;
    [by eexists|].
  cbn [Collector.visit_all].
  destruct (visit_readable st a) as [st1 ->].
  { intros d Hd Hne. apply (Hread a d); [by left|done|done]. }
  { intros href t. apply Hzone. by left. }
  cbn. apply IH.
  - intros b d Hb. apply Hread. by right.
  - intros b href t Hb. apply Hzone. by right.
Qed.

Lemma visit_inv (P : list article) (st st' : state) (a : article) :
  loop_inv P st -> visit st a = Ok st' -> loop_inv (P ++ [a]) st'.
Proof.
  destruct st as [rows seen]. intros (I1 & I2 & I3) Hv.
  apply visit_Ok in Hv as [[-> Hskip]|(h0 & t0 & Hi & Hc & Hn & ->)];
    unfold loop_inv; cbn [fst snd] in *.
  - split_and!.
    + intros r Hr. destruct (I1 r Hr) as (b & Hb & Hw).
      exists b. split; [apply in_or_app; by left|done].
    + intros h Hh. destruct (I2 h Hh) as (b & t & Hb & Hrest).
      exists b, t. split; [apply in_or_app; by left|done].
    + intros b h t Hb Hit Hct.
      apply in_app_or in Hb as [Hb|[<-|[]]]; [by eapply I3|by eapply Hskip].
  - split_and!.
    + intros r Hr. apply in_app_or in Hr as [Hr|[<-|[]]].
      * destruct (I1 r Hr) as (b & Hb & Hw).
        exists b. split; [apply in_or_app; by left|done].
      * exists a. split; [apply in_or_app; right; by left|].
        by exists h0, t0.
    + intros h Hh. apply elem_of_union in Hh as [Hh|Hh].
      * apply elem_of_singleton in Hh as ->. exists a, t0.
        split_and!; [apply in_or_app; right; by left|done|done|].
        apply in_or_app; right; by left.
      * destruct (I2 h Hh) as (b & t & Hb & Hit & Hct & Hrow).
        exists b, t. split_and!; [|done|done|]; apply in_or_app; by left.
    + intros b h t Hb Hit Hct.
      apply in_app_or in Hb as [Hb|[<-|[]]].
      * apply elem_of_union_r. by eapply I3.
      * destruct (item_fun _ _ _ _ _ Hi Hit) as [<- _].
        by apply elem_of_union_l, elem_of_singleton.
Qed.

Lemma visit_all_inv (P arts : list article) (st st' : state) :
  loop_inv P st -> visit_all arts st = Ok st' -> loop_inv (P ++ arts) st'.
Proof.
  revert P st. induction arts as [|a arts IH]; intros P st HI Hrun.
  - injection Hrun as <-. by rewrite app_nil_r.
  - cbn [Collector.visit_all] in Hrun.
    destruct (visit st a) as [st1|e] eqn:Hv; [|done]. cbn in Hrun.
    replace (P ++ a :: arts) with ((P ++ [a]) ++ arts)
      by (by rewrite <- app_assoc).
    eapply IH; [|exact Hrun]. by eapply visit_inv.
Qed.

(** The rows of a completed loop are the records of the items of the
    window, no more and no fewer. *)
Lemma visit_all_exact (items : list article) (st' : state) :
  stable_identity items ->
  visit_all items ([], ∅) = Ok st' ->
  forall r, In r st'.1 <-> exists a, In a items /\ in_window a r.
Proof.
  intros Hstable Hrun r.
  assert (HI : loop_inv ([] ++ items) st').
  { eapply visit_all_inv; [|exact Hrun].
    split_and!; [by intros ? []| |by intros ? ? ? []].
    intros h Hh. by apply not_elem_of_empty in Hh. }
  destruct HI as (I1 & I2 & I3). cbn [app] in *. split; [apply I1|].
  intros (a & Ha & h & t & Hit & Hct & ->).
  pose proof (I3 a h t Ha Hit Hct) as Hseen.
  destruct (I2 h Hseen) as (b & t' & Hb & Hit' & _ & Hrow).
  destruct Hit as (d & Hl & Hne & Hd & Hdne & Hp).
  destruct Hit' as (d' & Hl' & _ & Hd' & _ & Hp').
  destruct (Hstable a b h Ha Hb Hl Hl') as [Htime Htext].
  assert (t' = t) as -> by congruence.
  unfold tweet_text in *. by rewrite Htext.
Qed.

End LoopFacts.

(* ================================================================== *)
(** ** Facts about the runs *)
(* ================================================================== *)

Lemma M_bind_run {A B} (m : M A) (f : A -> M B) (w : world) :
  (m ≫= f) w
  = match m w with
    | (Ok a, w') => f a w'
    | (Raise e, w') => (Raise e, w')
    end.
Proof. reflexivity. Qed.

Section Quiet.

Lemma no_generation_ret {A} (a : A) : no_generation (mret a : M A).
Proof. intros w. split; [done|]. exists []. by rewrite app_nil_r. Qed.

Lemma no_generation_raise {A} (e : exn) : no_generation (raise e : M A).
Proof. intros w. split; [done|]. exists []. by rewrite app_nil_r. Qed.

Lemma no_generation_lift {A} (r : result A) : no_generation (lift r).
Proof. intros w. split; [done|]. exists []. by rewrite app_nil_r. Qed.

Lemma no_generation_emit (ev : event) :
  is_generate ev = false -> no_generation (emit ev).
Proof.
  intros Hev w. split; [done|]. exists [ev]. split; [done|].
  by constructor.
Qed.

Lemma no_generation_bind {A B} (m : M A) (f : A -> M B) :
  no_generation m -> (forall a, no_generation (f a)) ->
  no_generation (m ≫= f).
Proof.
  intros Hm Hf w. rewrite M_bind_run.
  destruct (Hm w) as (Hkey & evs & Htr & Hev).
  destruct (m w) as [[a|e] w1]; cbn [snd] in *.
  - destruct (Hf a w1) as (Hkey' & evs' & Htr' & Hev').
    split; [congruence|]. exists (evs ++ evs').
    split; [by rewrite Htr', Htr, app_assoc|by apply Forall_app].
  - split; [done|]. by exists evs.
Qed.

Lemma no_generation_getenv : no_generation getenv.
Proof. intros w. split; [done|]. exists []. by rewrite app_nil_r. Qed.

Lemma no_generation_now : no_generation datetime_now.
Proof. intros w. split; [done|]. exists []. by rewrite app_nil_r. Qed.

Lemma no_generation_exists (path : str) : no_generation (exists_file path).
Proof. intros w. split; [done|]. exists []. by rewrite app_nil_r. Qed.

Lemma no_generation_read (path : str) : no_generation (read_file path).
Proof.
  intros w. unfold read_file. destruct (files w !! path); cbn [snd].
  - split; [done|]. exists [EvRead path]. split; [done|]. by constructor.
  - split; [done|]. exists []. by rewrite app_nil_r.
Qed.

Lemma no_generation_write_pieces (path : str) (pieces : list str) :
  no_generation (write_pieces path pieces).
Proof.
  intros w. unfold write_pieces.
  destruct (forallb encodable pieces); cbn [snd log store environ_key trace];
    (split; [done|]); eexists [_]; (split; [done|]); by constructor.
Qed.

Lemma no_generation_write (path content : str) :
  no_generation (write_file path content).
Proof. apply no_generation_write_pieces. Qed.

Lemma no_generation_query : no_generation query_selector_all.
Proof.
  intros w. split; [done|]. exists [EvQuery]. split; [done|].
  by constructor.
Qed.

Lemma no_generation_wheel : no_generation mouse_wheel.
Proof.
  intros w. split; [done|]. exists [EvWheel]. split; [done|].
  by constructor.
Qed.

End Quiet.

Ltac quiet_step :=
  lazymatch goal with
  | |- no_generation (mbind _ _) => apply no_generation_bind; [|intros ?]
  | |- no_generation (mret _) => apply no_generation_ret
  | |- no_generation (raise _) => apply no_generation_raise
  | |- no_generation (lift _) => apply no_generation_lift
  | |- no_generation (emit _) => apply no_generation_emit; reflexivity
  | |- no_generation getenv => apply no_generation_getenv
  | |- no_generation datetime_now => apply no_generation_now
  | |- no_generation (exists_file _) => apply no_generation_exists
  | |- no_generation (read_file _) => apply no_generation_read
  | |- no_generation (write_file _ _) => apply no_generation_write
  | |- no_generation (write_pieces _ _) => apply no_generation_write_pieces
  | |- no_generation query_selector_all => apply no_generation_query
  | |- no_generation mouse_wheel => apply no_generation_wheel
  end.

Ltac quiet := repeat quiet_step.

Section RunFacts.

Variable fromisoformat : str -> result parsed.
Variable utcoffset : Z -> Z.
Variable strftime : Z -> str.

Local Abbreviation visit_all := (visit_all fromisoformat utcoffset).
Local Abbreviation scroll_loop := (scroll_loop fromisoformat utcoffset).
Local Abbreviation scrape_last_hours :=
  (scrape_last_hours fromisoformat utcoffset).

(** One turn of the loop. *)
Lemma scroll_loop_step (cutoff : Z) (n : nat) (st : state) (w : world) :
  scroll_loop cutoff (S n) st w
  = match visit_all cutoff (default [] (head (renders w))) st
    with
    | Ok st' =>
        scroll_loop cutoff n st'
          (log (EvWait SCROLL_WAIT_MS) (log EvWheel (turn (log EvQuery w))))
    | Raise e => (Raise e, log EvQuery w)
    end.
Proof.
  cbn [Pipeline.scroll_loop].
  unfold mbind, M_bind, query_selector_all, lift, mouse_wheel, emit.
  by destruct (visit_all cutoff _ st).
Qed.

(** The loop returns what going through the renderings one after the
    other returns. *)
Lemma scroll_loop_result (cutoff : Z) (n : nat) (st : state) (w : world) :
  fst (scroll_loop cutoff n st w)
  = visit_all cutoff (concat (take n (renders w))) st.
Proof.
  revert st w. induction n as [|n IH]; intros st w; [done|].
  rewrite scroll_loop_step.
  destruct (renders w) as [|arts rest] eqn:Hr; cbn [head default from_option id take concat].
  - cbn [Collector.visit_all]. rewrite IH. cbn [log turn renders].
    rewrite Hr. cbn [tail]. by rewrite take_nil.
  - rewrite visit_all_app.
    destruct (visit_all cutoff arts st) as [st1|e]; [|reflexivity].
    rewrite IH. cbn [log turn renders]. by rewrite Hr.
Qed.

Lemma scroll_loop_quiet (cutoff : Z) (n : nat) (st : state) :
  no_generation (scroll_loop cutoff n st).
Proof.
  revert st. induction n as [|n IH]; intros st; cbn [Pipeline.scroll_loop];
    quiet.
  apply IH.
Qed.

Lemma scrape_quiet (user : str) (hours_back : Z) :
  no_generation (scrape_last_hours user hours_back).
Proof.
  unfold Pipeline.scrape_last_hours. quiet.
  - match goal with b : bool |- _ => destruct b end; quiet.
  - apply scroll_loop_quiet.
Qed.

(** A run that cannot tell its cutoff stops there, before the browser
    is launched. *)
Lemma scrape_overflow (user : str) (hours_back : Z) (w : world) (e : exn) :
  cutoff_of (now_utc w) hours_back = Raise e ->
  scrape_last_hours user hours_back w = (Raise e, w).
Proof.
  intros Hcut. unfold Pipeline.scrape_last_hours.
  rewrite M_bind_run. cbn [datetime_now].
  rewrite M_bind_run. unfold lift. by rewrite Hcut.
Qed.

(** What [scrape_last_hours] returns, as a function of the renderings
    and the clock. *)
Lemma scrape_result (user : str) (hours_back : Z) (w : world) :
  fst (scrape_last_hours user hours_back w)
  = (cutoff ← cutoff_of (now_utc w) hours_back;
     st ← visit_all cutoff (rendered w) ([], ∅);
     Ok (corpus utcoffset st.1)).
Proof.
  destruct (cutoff_of (now_utc w) hours_back) as [cutoff|e] eqn:Hcut;
    [|by rewrite (scrape_overflow _ _ _ e)].
  unfold Pipeline.scrape_last_hours, rendered.
  rewrite M_bind_run. cbn [datetime_now].
  rewrite M_bind_run. unfold lift at 1. rewrite Hcut.
  rewrite M_bind_run. cbn [emit].
  rewrite M_bind_run. cbn [exists_file].
  rewrite M_bind_run.
  set (w1 := log EvLaunch w).
  assert (Hpre : exists w2,
             renders w2 = renders w
             /\ (if bool_decide (is_Some (files w1 !! COOKIES_FILE))
                 then read_file COOKIES_FILE ≫= (fun _ => mret ())
                 else mret ()) w1 = (Ok (), w2)).
  { case_bool_decide as Hc.
    - destruct Hc as [c Hc]. rewrite M_bind_run. unfold read_file.
      rewrite Hc. eexists. split; [|reflexivity]. done.
    - eexists. split; [|reflexivity]. done. }
  destruct Hpre as (w2 & Hr & ->).
  repeat (rewrite M_bind_run; cbn [emit]).
  match goal with
  | |- context [Pipeline.scroll_loop _ _ ?c ?n ?s ?w'] =>
      pose proof (scroll_loop_result c n s w') as Hloop;
      destruct (scroll_loop c n s w') as [[st|e] w3]
  end; cbn [fst log renders] in Hloop; rewrite Hr in Hloop;
    cbn [mbind result_bind]; rewrite <- Hloop; [|done].
  by rewrite !M_bind_run.
Qed.

(** A run that returns had a cutoff, and its loop returned the rows
    the output is made of. *)
Lemma scrape_Ok (user : str) (hours_back : Z) (w : world) (out : list row) :
  fst (scrape_last_hours user hours_back w) = Ok out ->
  cutoff_of (now_utc w) hours_back = Ok (now_utc w - hours hours_back)
  /\ exists st,
      visit_all (now_utc w - hours hours_back) (rendered w) ([], ∅) = Ok st
      /\ out = corpus utcoffset st.1.
Proof.
  rewrite scrape_result.
  destruct (cutoff_of (now_utc w) hours_back) as [cutoff|e] eqn:Hcut;
    [|done].
  pose proof (cutoff_of_Ok _ _ _ Hcut) as ->. cbn [mbind result_bind].
  destruct (visit_all _ (rendered w) ([], ∅)) as [st|e]; [|done].
  intros [= <-]. split; [done|]. by exists st.
Qed.

End RunFacts.

(* ================================================================== *)
(** ** The Collector's properties *)
(* ================================================================== *)

Lemma scrape_window
      (fromisoformat : str -> result parsed) (utcoffset : Z -> Z)
      (user : str) (hours_back : Z) (w : world) (out : list row) :
  stable_identity (rendered w) ->
  fst (scrape_last_hours fromisoformat utcoffset user hours_back w) = Ok out ->
  forall r, In r out <->
            exists a, In a (rendered w)
                      /\ in_window fromisoformat
                                   (now_utc w - hours hours_back) a r.
Proof.
  intros Hstable Hrun r.
  apply scrape_Ok in Hrun as (_ & st & Hloop & ->). rewrite corpus_In.
  by apply (visit_all_exact fromisoformat utcoffset _ (rendered w)).
Qed.

(** The sample page: B, then A and B again. *)
Lemma two_headlines_stable :
  stable_identity (rendered (Samples.world_of None ∅ Samples.two_headlines)).
Proof.
  intros a b href Ha Hb Hla Hlb. vm_compute in Ha, Hb.
  destruct Ha as [<-|[<-|[<-|[]]]]; destruct Hb as [<-|[<-|[<-|[]]]];
    first [ by split | vm_compute in Hla, Hlb; congruence ].
Qed.

Lemma two_headlines_readable :
  readable Samples.fromisoformat
           (rendered (Samples.world_of None ∅ Samples.two_headlines)).
Proof.
  intros a dt_str Ha Ht _. vm_compute in Ha.
  destruct Ha as [<-|[<-|[<-|[]]]]; vm_compute in Ht;
    injection Ht as <-; eexists; vm_compute; reflexivity.
Qed.

Lemma two_headlines_convertible (cutoff : Z) :
  convertible Samples.fromisoformat Samples.zurich cutoff
              (rendered (Samples.world_of None ∅ Samples.two_headlines)).
Proof.
  intros a href t Ha (d & _ & _ & Hd & _ & Hp) _. vm_compute in Ha.
  destruct Ha as [<-|[<-|[<-|[]]]]; vm_compute in Hd; injection Hd as <-;
    vm_compute in Hp; injection Hp as <-; vm_compute; reflexivity.
Qed.

(** C2, as stated, fails.  Two posts of the same second, neither with
    a text, are two items of the window with two identifiers; the
    output holds one record.  And a run asked to go back 20000000
    hours, before the year 1, does not return: line 71 raises. *)
Lemma two_items_of_one_second_share_one_record :
  let w := Samples.world_of None ∅ Samples.two_pictures in
  let t := 1704103200000000 in
  stable_identity (rendered w)
  /\ In Samples.picture_a (rendered w) /\ In Samples.picture_b (rendered w)
  /\ item Samples.fromisoformat Samples.picture_a
          (lit "/financialjuice/status/5") t
  /\ item Samples.fromisoformat Samples.picture_b
          (lit "/financialjuice/status/6") t
  /\ now_utc w - hours 24 <= t
  /\ fst (scrape_last_hours Samples.fromisoformat Samples.zurich USER 24 w)
     = Ok [Row t []]
  /\ fst (scrape_last_hours Samples.fromisoformat Samples.zurich USER
                            20000000 w)
     = Raise OverflowError.
Proof.
  intros w t. split_and!.
  - intros a b href Ha Hb Hla Hlb. vm_compute in Ha, Hb.
    destruct Ha as [<-|[<-|[]]]; destruct Hb as [<-|[<-|[]]];
      first [ by split | vm_compute in Hla, Hlb; congruence ].
  - vm_compute. tauto.
  - vm_compute. tauto.
  - exists (lit "2024-01-01T10:00:00.000Z"). by vm_compute.
  - exists (lit "2024-01-01T10:00:00.000Z"). by vm_compute.
  - by vm_compute.
  - vm_compute. reflexivity.
  - vm_compute. reflexivity.
Qed.

(** C2, amended: take a run whose renderings show each identifier with
    one timestamp and one text, and let [cutoff = now_utc -
    hours_back].  If line 71 can tell the cutoff, every timestamp
    attribute reads as an instant and the items of the window can be
    shown in the zone, [scrape_last_hours] returns.  Whenever it
    returns, its output holds exactly the records (timestamp, text) of
    the rendered items whose timestamp is at or after [cutoff], each
    record once, so that items with the same timestamp and text share
    one; the record of an item stamped exactly [cutoff] is in the
    output; and a second run at the same time over renderings that
    show the same articles, in whatever order and however often, holds
    the same records. *)
Theorem scrape_exactly_the_window
        (fromisoformat : str -> result parsed) (utcoffset : Z -> Z)
        (user : str) (hours_back : Z) (w : world) :
  stable_identity (rendered w) ->
  let cutoff := now_utc w - hours hours_back in
  (cutoff_of (now_utc w) hours_back = Ok cutoff ->
   readable fromisoformat (rendered w) ->
   convertible fromisoformat utcoffset cutoff (rendered w) ->
   exists out,
     fst (scrape_last_hours fromisoformat utcoffset user hours_back w)
     = Ok out)
  /\ (forall out,
        fst (scrape_last_hours fromisoformat utcoffset user hours_back w)
        = Ok out ->
        NoDup out
        /\ (forall r, In r out <->
                      exists a, In a (rendered w)
                                /\ in_window fromisoformat cutoff a r)
        /\ (forall a href,
              In a (rendered w) -> item fromisoformat a href cutoff ->
              In (Row cutoff (tweet_text a)) out)
        /\ (forall w' out',
              now_utc w' = now_utc w ->
              (forall a, In a (rendered w') <-> In a (rendered w)) ->
              fst (scrape_last_hours fromisoformat utcoffset user
                                     hours_back w')
              = Ok out' ->
              forall r, In r out' <-> In r out)).
Proof.
  intros Hstable cutoff. split.
  - intros Hcut Hread Hzone. rewrite scrape_result, Hcut.
    cbn [mbind result_bind].
    destruct (visit_all_readable fromisoformat utcoffset cutoff
                (rendered w) ([], ∅)) as [st ->]; [done|done|].
    by eexists.
  - intros out Hrun.
    pose proof (scrape_window fromisoformat utcoffset user hours_back w out
                  Hstable Hrun) as Hexact.
    split_and!; [|exact Hexact| |].
    + apply scrape_Ok in Hrun as (_ & st & _ & ->). apply corpus_NoDup.
    + intros a href Ha Hitem. apply Hexact. exists a. split; [done|].
      exists href, cutoff. split_and!; [done|lia|done].
    + intros w' out' Hnow Hsame Hrun' r.
      assert (Hstable' : stable_identity (rendered w')).
      { intros a b href Ha Hb. apply Hstable; by apply Hsame. }
      rewrite (scrape_window fromisoformat utcoffset user hours_back w' out'
                 Hstable' Hrun' r), Hexact, Hnow.
      split; intros (a & Ha & Hw); exists a; (split; [by apply Hsame|done]).
Qed.

Lemma scrape_exactly_the_window_witness :
  let w := Samples.world_of None ∅ Samples.two_headlines in
  let out := [Row 1704103200000000 (lit "Headline A")] in
  fst (scrape_last_hours Samples.fromisoformat Samples.zurich USER 2 w)
  = Ok out
  /\ (exists out',
        fst (scrape_last_hours Samples.fromisoformat Samples.zurich USER 2 w)
        = Ok out')
  /\ NoDup out
  /\ (forall r, In r out <->
                exists a, In a (rendered w)
                          /\ in_window Samples.fromisoformat
                                       (now_utc w - hours 2) a r).
Proof.
  intros w out.
  assert (Hrun : fst (scrape_last_hours Samples.fromisoformat Samples.zurich
                                        USER 2 w)
                 = Ok out) by (vm_compute; reflexivity).
  destruct (scrape_exactly_the_window Samples.fromisoformat Samples.zurich
              USER 2 w two_headlines_stable) as [Hret Hexact].
  destruct (Hexact out Hrun) as (Hnd & Hin & _).
  split_and!; [exact Hrun| |exact Hnd|exact Hin].
  apply Hret; [vm_compute; reflexivity|apply two_headlines_readable|].
  apply two_headlines_convertible.
Defined.

(** C9, where the code departs from it.  In the night of 29 October
    2023 the clocks of Europe/Zurich went back from 03:00 to 02:00.  A
    post of 00:45 UTC shows 02:45 there, a post of 01:15 UTC shows
    02:15; the sort compares what the rows show, and the run returns
    the older record first. *)
Lemma older_record_first_when_the_clocks_go_back :
  let older := Row 1698540300000000 (lit "Headline E") in
  let newer := Row 1698542100000000 (lit "Headline F") in
  fst (scrape_last_hours Samples.fromisoformat Samples.zurich USER HOURS_BACK
                         Samples.night_of_the_change)
  = Ok [older; newer]
  /\ time older < time newer
  /\ wall_clock Samples.zurich newer < wall_clock Samples.zurich older
  /\ ~ newest_first [older; newer].
Proof.
  intros older newer. split_and!; [by vm_compute..|].
  intros Hnewest. specialize (Hnewest 0%nat older newer eq_refl eq_refl).
  by vm_compute in Hnewest.
Qed.

(** C9, what the code has instead: whenever [scrape_last_hours]
    returns, no record of its output shows an earlier wall clock than
    the one after it; the records are newest first when, among them, a
    later instant always shows a later wall clock. *)
Theorem scrape_latest_wall_clock_first
        (fromisoformat : str -> result parsed) (utcoffset : Z -> Z)
        (user : str) (hours_back : Z) (w : world) (out : list row) :
  fst (scrape_last_hours fromisoformat utcoffset user hours_back w) = Ok out ->
  latest_wall_clock_first utcoffset out
  /\ (clock_never_set_back utcoffset out -> newest_first out).
Proof.
  intros Hrun. apply scrape_Ok in Hrun as (_ & st & _ & ->).
  pose proof (corpus_latest_wall_clock_first utcoffset st.1) as Hwall.
  split; [exact Hwall|].
  intros Hclock. by apply (latest_wall_clock_newest utcoffset).
Qed.

Lemma scrape_latest_wall_clock_first_witness :
  let a := Row 1704103200000000 (lit "Headline A") in
  let b := Row 1704099600000000 (lit "Headline B") in
  latest_wall_clock_first Samples.zurich [a; b] /\ newest_first [a; b].
Proof.
  intros a b.
  destruct (scrape_latest_wall_clock_first Samples.fromisoformat
              Samples.zurich USER 24
              (Samples.world_of None ∅ Samples.two_headlines) [a; b])
    as [Hwall Hnewest]; [vm_compute; reflexivity|].
  split; [exact Hwall|]. apply Hnewest.
  intros r1 r2 [<-|[<-|[]]] [<-|[<-|[]]]; vm_compute; congruence.
Defined.

(** C6, where the code departs from it: an article that has its
    identifier and a timestamp attribute that [fromisoformat] refuses
    is not skipped; the exception leaves [scrape_last_hours], whenever
    the run got as far as the loop (line 71 having told the cutoff). *)
Theorem unreadable_timestamp_aborts
        (fromisoformat : str -> result parsed) (utcoffset : Z -> Z)
        (user : str) (hours_back : Z) (w : world)
        (a : article) (arts : list article) (rest : list (list article))
        (href dt_str : str) (e : exn) :
  renders w = (a :: arts) :: rest ->
  link_href a = Some (Some href) -> href <> [] ->
  time_datetime a = Some (Some dt_str) -> dt_str <> [] ->
  fromisoformat (replace (lit "Z") (lit "+00:00") dt_str) = Raise e ->
  fst (scrape_last_hours fromisoformat utcoffset user hours_back w)
  = match cutoff_of (now_utc w) hours_back with
    | Ok _ => Raise e
    | Raise overflow => Raise overflow
    end.
Proof.
  intros Hr Hl Hh Ht Hd Hp. rewrite scrape_result.
  destruct (cutoff_of (now_utc w) hours_back) as [cutoff|overflow]; [|done].
  cbn [mbind result_bind]. unfold rendered.
  rewrite Hr. cbn [MAX_SCROLLS take concat app Collector.visit_all].
  unfold visit. rewrite Hl, Ht.
  apply truthy_true in Hh, Hd. rewrite Hh, Hd. cbn [negb orb].
  rewrite bool_decide_eq_false_2 by apply not_elem_of_empty.
  by rewrite Hp.
Qed.

Lemma unreadable_timestamp_aborts_witness :
  fst (scrape_last_hours Samples.fromisoformat Samples.zurich USER 24
         (Samples.world_of None ∅ [[Samples.garbled; Samples.headline_a]]))
  = Raise (ValueError (lit "Invalid isoformat string")).
Proof.
  rewrite (unreadable_timestamp_aborts Samples.fromisoformat Samples.zurich
             USER 24
             (Samples.world_of None ∅ [[Samples.garbled; Samples.headline_a]])
             Samples.garbled [Samples.headline_a] []
             (lit "/financialjuice/status/3") (lit "yesterday")
             (ValueError (lit "Invalid isoformat string")));
    first [ reflexivity | discriminate ].
Defined.

(* ================================================================== *)
(** ** Facts about the files *)
(* ================================================================== *)

Section FileFacts.

Lemma lstrip_keeps (c : N) (s : str) :
  In c s -> is_space c = false -> In c (lstrip s).
Proof.
  intros Hin Hc. induction s as [|x s IH]; [done|]. cbn [lstrip].
  destruct (is_space x) eqn:Hx; [|done].
  destruct Hin as [->|Hin]; [congruence|by apply IH].
Qed.

(** A text with a character that is not whitespace is not blank. *)
Lemma strip_nonblank (c : N) (s : str) :
  In c s -> is_space c = false -> strip s <> [].
Proof.
  intros Hin Hc. assert (Hkeep : In c (strip s)).
  { unfold strip, rstrip. apply in_rev. rewrite rev_involutive.
    apply lstrip_keeps; [|done]. apply -> in_rev.
    by apply lstrip_keeps. }
  by destruct (strip s).
Qed.

(** A text is blank exactly when all its characters are whitespace. *)
Lemma strip_blank (s : str) : strip s = [] <-> forallb is_space s = true.
Proof.
  split.
  - intros Hblank. destruct (forallb is_space s) eqn:Hall; [done|].
    exfalso. apply not_true_iff_false in Hall.
    rewrite forallb_forall in Hall.
    assert (Hex : exists c, In c s /\ is_space c = false).
    { clear Hblank. induction s as [|x s IH].
      - exfalso. apply Hall. by intros ? [].
      - destruct (is_space x) eqn:Hx; [|exists x; split; [by left|done]].
        destruct IH as (c & Hc & Hsp).
        + intros Hs. apply Hall. intros y [<-|Hy]; [done|by apply Hs].
        + exists c. split; [by right|done]. }
    destruct Hex as (c & Hc & Hsp). by apply (strip_nonblank c s).
  - intros Hall. assert (Hl : lstrip s = []).
    { induction s as [|x s IH]; [done|]. cbn [forallb lstrip] in *.
      apply andb_prop in Hall as [-> Hall]. by apply IH. }
    unfold strip. by rewrite Hl.
Qed.

(** Replacing whitespace by whitespace keeps a text blank or not. *)
Lemma replace_from_blank (old new : str) (skip : nat) (s : str) :
  old <> [] -> forallb is_space old = true -> forallb is_space new = true ->
  forallb is_space (take skip s) = true ->
  forallb is_space (replace_from old new skip s) = forallb is_space s.
Proof.
  intros Hne Hold Hnew. revert skip.
  induction s as [|c r IH]; intros skip Hskip; [done|].
  destruct skip as [|k]; cbn [replace_from].
  - destruct (startswith old (c :: r)) eqn:Hstart.
    + apply startswith_drop in Hstart.
      destruct old as [|o old']; [done|].
      cbn [length app drop] in Hstart. injection Hstart as <- Hr.
      cbn [forallb] in Hold. apply andb_prop in Hold as [Ho Hold'].
      rewrite forallb_app, Hnew. cbn [andb forallb length].
      replace (S (length old') - 1)%nat with (length old') by lia.
      rewrite Ho. cbn [andb]. apply IH.
      rewrite Hr, take_app_length. exact Hold'.
    + cbn [forallb]. by rewrite IH.
  - cbn [take forallb] in *. apply andb_prop in Hskip as [-> Hskip].
    cbn [andb]. by apply IH.
Qed.

Lemma universal_newlines_blank (s : str) :
  strip (universal_newlines s) = [] <-> strip s = [].
Proof.
  rewrite !strip_blank. unfold universal_newlines, replace.
  by rewrite !replace_from_blank.
Qed.

Lemma universal_newlines_nil : universal_newlines [] = [].
Proof. reflexivity. Qed.

Lemma encodable_concat (pieces : list str) :
  encodable (concat pieces) = forallb encodable pieces.
Proof.
  induction pieces as [|piece rest IH]; [done|].
  cbn [concat forallb]. unfold encodable at 1. rewrite forallb_app.
  by rewrite <- IH.
Qed.

Lemma encodable_prefix_all (pieces : list str) :
  forallb encodable pieces = true -> encodable_prefix pieces = pieces.
Proof.
  induction pieces as [|piece rest IH]; [done|]. cbn [forallb encodable_prefix].
  intros [-> Hrest]%andb_prop. f_equal. by apply IH.
Qed.

(** [Path(path).write_text(content)], by the two cases. *)
Lemma write_file_run (path content : str) (w : world) :
  write_file path content w
  = let written := if encodable content then content else [] in
    (if encodable content then Ok () else Raise UnicodeEncodeError,
     log (EvWrite path written) (store path written w)).
Proof.
  unfold write_file, write_pieces. cbn [forallb encodable_prefix].
  rewrite andb_true_r. destruct (encodable content); cbn [concat];
    by rewrite ?app_nil_r.
Qed.

Variable strftime : Z -> str.

Lemma persisted_encodable (rows : list row) :
  encodable (serialize strftime rows) = true ->
  persisted strftime rows = serialize strftime rows.
Proof.
  unfold serialize, persisted. rewrite encodable_concat.
  intros Hall. by rewrite encodable_prefix_all.
Qed.

(** [save_tweets_txt], by the two cases. *)
Lemma save_run (rows : list row) (path : str) (w : world) :
  save_tweets_txt strftime rows path w
  = let written := persisted strftime rows in
    (if encodable (serialize strftime rows) then Ok ()
     else Raise UnicodeEncodeError,
     log (EvWrite path written) (store path written w)).
Proof.
  unfold save_tweets_txt, write_pieces, serialize, persisted.
  rewrite encodable_concat. by destruct (forallb encodable _).
Qed.

End FileFacts.

(* ================================================================== *)
(** ** The pipeline's preconditions *)
(* ================================================================== *)

Lemma contains_suffix (p q : str) : contains q (p ++ q) = true.
Proof.
  assert (Hself : forall s, startswith s s = true).
  { induction s as [|c s IH]; [done|]. simpl. by rewrite N.eqb_refl. }
  assert (Hq : contains q q = true).
  { destruct q as [|c q]; [done|]. cbn [contains].
    by rewrite (Hself (c :: q)). }
  induction p as [|c p IH]; [done|].
  cbn [app contains]. rewrite IH. apply orb_true_r.
Qed.

Section PipelineFacts.

Variable strftime : Z -> str.



End PipelineFacts.




(** C5: if the key is set and the corpus file is empty when
    [summarize_tweets_to_md] is called, it raises a [ValueError] whose
    message ends with the path of the file; up to there it has
    configured the client and read the file: no generation request was
    issued and no file written, the summary file no more than any
    other. *)
Theorem empty_corpus_raises_before_any_generation
        (tweets_path output_md custom_prompt model_name : str)
        (max_chars_per_chunk : Z) (w : world) (api_key : str) :
  environ_key w = Some api_key -> api_key <> [] ->
  files w !! tweets_path = Some [] ->
  let run := summarize_tweets_to_md tweets_path output_md custom_prompt
                                    model_name max_chars_per_chunk w in
  let msg := lit "Tweet file is empty: " ++ tweets_path in
  fst run = Raise (ValueError msg)
  /\ contains tweets_path msg = true
  /\ trace (snd run) = trace w ++ [EvConfigure api_key; EvRead tweets_path]
  /\ Forall (fun ev => is_generate ev = false)
            [EvConfigure api_key; EvRead tweets_path]
  /\ files (snd run) = files w.
Proof.
  intros Hkey Hne Hfile run msg.
  assert (Hrun : run = (Raise (ValueError msg),
                        log (EvRead tweets_path) (log (EvConfigure api_key) w))).
  { unfold run, summarize_tweets_to_md, require_gemini, load_tweets.
    rewrite !M_bind_run. cbn [getenv]. rewrite Hkey.
    apply truthy_true in Hne. rewrite Hne. cbn [emit].
    rewrite !M_bind_run. unfold read_file. cbn [log files].
    rewrite Hfile. cbn [mret M_ret]. rewrite universal_newlines_nil.
    by change (strip []) with (@nil N). }
  rewrite Hrun. cbn [fst snd log trace files].
  split_and!; [done|apply contains_suffix| |by repeat constructor|done].
  by rewrite <- app_assoc.
Qed.

Lemma empty_corpus_raises_before_any_generation_witness :
  let path := lit "tweets.txt" in
  let w := Samples.world_of (Some (lit "k")) {[ path := [] ]} [] in
  fst (summarize_tweets_to_md path (lit "summary.md") CUSTOM_PROMPT
                              MODEL_NAME 15000 w)
  = Raise (ValueError (lit "Tweet file is empty: tweets.txt")).
Proof.
  intros path w.
  apply (empty_corpus_raises_before_any_generation
           path (lit "summary.md") CUSTOM_PROMPT MODEL_NAME 15000 w
           (lit "k")); [reflexivity|discriminate|].
  by vm_compute.
Defined.

(* ================================================================== *)
(** ** Further properties of the Chunker *)
(* ================================================================== *)

Lemma groups_le_blocks (gs : list (list str)) :
  Forall (fun g => g <> []) gs -> (length gs <= length (concat gs))%nat.
Proof.
  induction 1 as [|g gs Hg _ IH]; [done|].
  cbn [concat length]. rewrite length_app.
  destruct g; [done|]. simpl. lia.
Qed.

(** X1: [chunk_text] returns at least one chunk and never more chunks
    than the text has blocks. *)
Theorem chunk_count_bounds (s : str) (max_chars : Z) :
  (1 <= length (chunk_text s max_chars)
   <= length (split BLANK (replace CRLF NL s)))%nat.
Proof.
  destruct (chunk_text_partition s max_chars) as (gs & -> & Hcat & Hall).
  rewrite length_map. split.
  - destruct gs as [|g gs]; [|simpl; lia].
    symmetry in Hcat. apply map_eq_nil in Hcat.
    by apply split_nonempty in Hcat.
  - rewrite <- (length_map resep), <- Hcat. apply groups_le_blocks.
    eapply Forall_impl; [exact Hall|]. by intros g [? _].
Qed.

(** X2: if no block, with its separator, is longer than the budget,
    then no chunk is. *)
Theorem chunks_within_budget (s : str) (max_chars : Z) :
  (forall b, In b (split BLANK (replace CRLF NL s)) ->
             len (resep b) <= max_chars) ->
  forall c, In c (chunk_text s max_chars) -> len c <= max_chars.
Proof.
  intros Hblocks c Hc.
  destruct (chunk_text_partition s max_chars) as (gs & Hrun & Hcat & Hall).
  rewrite Hrun in Hc. apply in_map_iff in Hc as (g & <- & Hg).
  rewrite Forall_forall in Hall.
  destruct (Hall g) as [_ [Hfit|[b ->]]]; [by apply list_elem_of_In|done|].
  cbn [concat]. rewrite app_nil_r.
  assert (Hin : In b (concat gs)) by (apply in_concat; exists [b]; by split; [|left]).
  rewrite Hcat in Hin. apply in_map_iff in Hin as (b0 & <- & Hb0).
  by apply Hblocks.
Qed.

Lemma chunks_within_budget_witness :
  Forall (fun c => len c <= 4)
         (chunk_text (lit "a" ++ BLANK ++ lit "bb" ++ BLANK ++ lit "c") 4).
Proof.
  apply Forall_forall. intros c Hc. apply list_elem_of_In in Hc.
  revert c Hc.
  apply (chunks_within_budget (lit "a" ++ BLANK ++ lit "bb" ++ BLANK ++ lit "c") 4).
  intros b Hb. vm_compute in Hb.
  destruct Hb as [<-|[<-|[<-|[]]]]; vm_compute; discriminate.
Defined.

Lemma chunk_loop_all_fits (max_chars : Z) (blocks chunks cur : list str)
      (total : Z) :
  total = len (concat cur) ->
  total + len (concat (map resep blocks)) <= max_chars ->
  cur <> [] \/ blocks <> [] ->
  chunk_loop max_chars blocks chunks cur total
  = chunks ++ [concat (cur ++ map resep blocks)].
Proof.
  revert cur total. induction blocks as [|block rest IH];
    intros cur total Ht Hfit Hne.
  - cbn [chunk_loop map]. rewrite app_nil_r.
    destruct Hne as [Hne|Hne]; [|done].
    apply truthy_true in Hne. by rewrite Hne.
  - cbn [chunk_loop map concat] in *. fold (resep block).
    rewrite len_app in Hfit. pose proof (len_nonneg (concat (map resep rest))).
    destruct (Z.gtb_spec (total + len (resep block)) max_chars); [lia|].
    rewrite andb_false_r, IH.
    + by rewrite <- app_assoc.
    + rewrite concat_app, len_app. cbn [concat]. rewrite app_nil_r. lia.
    + lia.
    + left. by destruct cur.
Qed.

(** X3: a budget that covers the whole text, with its final separator,
    gives a single chunk: the normalised text followed by ["\n\n"]. *)
Theorem chunk_text_single (s : str) (max_chars : Z) :
  len (replace CRLF NL s) + 2 <= max_chars ->
  chunk_text s max_chars = [replace CRLF NL s ++ BLANK].
Proof.
  intros Hfit. unfold chunk_text.
  assert (Hflat : concat (map resep (split BLANK (replace CRLF NL s)))
                  = replace CRLF NL s ++ BLANK).
  { unfold resep. rewrite concat_resep by apply split_nonempty.
    by rewrite join_split by apply BLANK_nonempty. }
  rewrite chunk_loop_all_fits.
  - cbn [app]. by rewrite Hflat.
  - done.
  - rewrite Hflat, len_app. change (len BLANK) with 2.
    change (len (concat [])) with 0 in *. lia.
  - right. apply split_nonempty.
Qed.

Lemma chunk_text_single_witness :
  chunk_text (lit "a" ++ CRLF ++ CRLF ++ lit "b") 6
  = [lit "a" ++ BLANK ++ lit "b" ++ BLANK].
Proof.
  apply (chunk_text_single (lit "a" ++ CRLF ++ CRLF ++ lit "b") 6).
  vm_compute. discriminate.
Defined.

Lemma chunk_loop_tiny (max_chars : Z) (blocks chunks cur : list str)
      (total : Z) :
  max_chars < 4 ->
  (cur = [] /\ total = 0
   \/ exists b, cur = [resep b] /\ total = len (resep b)) ->
  chunk_loop max_chars blocks chunks cur total
  = chunks ++ cur ++ map resep blocks.
Proof.
  intros Htiny. revert chunks cur total.
  induction blocks as [|block rest IH]; intros chunks cur total Hcur.
  - cbn [chunk_loop map].
    destruct Hcur as [[-> _]|(b & -> & _)]; cbn [truthy concat app];
      by rewrite ?app_nil_r.
  - cbn [chunk_loop map]. fold (resep block).
    assert (Hsz : forall b, 2 <= len (resep b)).
    { intros b. unfold resep. rewrite len_app. pose proof (len_nonneg b).
      unfold BLANK, len at 2. simpl. lia. }
    destruct Hcur as [[-> ->]|(b & -> & ->)]; cbn [truthy andb app].
    + rewrite IH by (right; by exists block). done.
    + pose proof (Hsz b). pose proof (Hsz block).
      destruct (Z.gtb_spec (len (resep b) + len (resep block)) max_chars);
        [|lia].
      rewrite IH by (right; exists block; split; [done|lia]).
      cbn [concat]. rewrite app_nil_r. by rewrite <- !app_assoc.
Qed.

(** X4: with a budget below 4, zero and negative budgets included,
    every block is a chunk by itself. *)
Theorem chunk_text_tiny_budget (s : str) (max_chars : Z) :
  max_chars < 4 ->
  chunk_text s max_chars = map resep (split BLANK (replace CRLF NL s)).
Proof.
  intros Htiny. unfold chunk_text.
  rewrite chunk_loop_tiny; [done|done|by left].
Qed.

Lemma chunk_text_tiny_budget_witness :
  chunk_text (lit "a" ++ BLANK ++ BLANK ++ lit "b") (-1)
  = [lit "a" ++ BLANK; BLANK; lit "b" ++ BLANK].
Proof.
  apply (chunk_text_tiny_budget (lit "a" ++ BLANK ++ BLANK ++ lit "b") (-1)).
  lia.
Defined.

Lemma chunk_loop_greedy (max_chars : Z) (blocks chunks cur : list str)
      (total : Z) :
  total = len (concat cur) ->
  exists gs : list (list str),
    chunk_loop max_chars blocks chunks cur total
    = chunks ++ map (fun g => concat g) gs
    /\ concat gs = cur ++ map resep blocks
    /\ (cur <> [] -> exists g0 tl, gs = (cur ++ g0) :: tl)
    /\ greedy max_chars gs.
Proof.
  revert chunks cur total.
  induction blocks as [|block rest IH]; intros chunks cur total Ht.
  - cbn [chunk_loop map]. rewrite app_nil_r.
    destruct cur as [|c cur'] eqn:E; cbn [truthy].
    + exists []. by rewrite app_nil_r.
    + exists [c :: cur']. cbn [map concat]. rewrite app_nil_r.
      split_and!; [done|done| |done].
      intros _. exists [], []. by rewrite app_nil_r.
  - cbn [chunk_loop]. fold (resep block).
    destruct (truthy cur && (total + len (resep block) >? max_chars))
      eqn:Hflush.
    + apply andb_prop in Hflush as [Hne Hover].
      apply truthy_true in Hne. apply Z.gtb_lt in Hover.
      destruct (IH (chunks ++ [concat cur]) [resep block]
                   (0 + len (resep block)))
        as (gs & Hrun & Hcat & Hshape & Hgr).
      { cbn [concat]. rewrite app_nil_r. lia. }
      destruct Hshape as (g0 & tl & ->); [done|].
      exists (cur :: ([resep block] ++ g0) :: tl).
      rewrite Hrun. cbn [map concat] in *. rewrite Hcat.
      split_and!.
      * by rewrite <- app_assoc.
      * done.
      * intros _. exists [], (([resep block] ++ g0) :: tl).
        by rewrite app_nil_r.
      * cbn [greedy app]. split; [|exact Hgr].
        exists (resep block), g0. split; [done|]. lia.
    + destruct (IH chunks (cur ++ [resep block])
                   (total + len (resep block)))
        as (gs & Hrun & Hcat & Hshape & Hgr).
      { rewrite concat_app, len_app. cbn [concat].
        rewrite app_nil_r. lia. }
      exists gs. rewrite Hrun, Hcat. split_and!; [done| |  |done].
      * by rewrite <- app_assoc.
      * intros _. destruct Hshape as (g0 & tl & ->); [by destruct cur|].
        exists ([resep block] ++ g0), tl. by rewrite <- app_assoc.
Qed.

(** X5: the chunking is greedy.  The chunks are the groups of a
    partition of the blocks in which every group, together with the
    first block of the next group, has more than [max_chars]
    characters: no chunk could have taken one more block. *)
Theorem chunk_text_greedy (s : str) (max_chars : Z) :
  exists gs : list (list str),
    chunk_text s max_chars = map (fun g => concat g) gs
    /\ concat gs = map resep (split BLANK (replace CRLF NL s))
    /\ greedy max_chars gs.
Proof.
  unfold chunk_text.
  destruct (chunk_loop_greedy max_chars (split BLANK (replace CRLF NL s))
              [] [] 0) as (gs & Hrun & Hcat & _ & Hgr); [done|].
  exists gs. by rewrite Hrun, Hcat.
Qed.

(* ================================================================== *)
(** ** Further facts about strings and the corpus *)
(* ================================================================== *)

Lemma lstrip_idem (s : str) : lstrip (lstrip s) = lstrip s.
Proof.
  induction s as [|c s IH]; [done|]. cbn [lstrip].
  destruct (is_space c) eqn:Hc; [done|]. cbn [lstrip]. by rewrite Hc.
Qed.

Lemma lstrip_snoc (l : str) (c : N) :
  is_space c = false -> lstrip (l ++ [c]) = lstrip l ++ [c].
Proof.
  intros Hc. induction l as [|x l IH]; cbn [app lstrip]; [by rewrite Hc|].
  by destruct (is_space x).
Qed.

Lemma rstrip_idem (s : str) : rstrip (rstrip s) = rstrip s.
Proof. unfold rstrip. by rewrite rev_involutive, lstrip_idem. Qed.

Lemma lstrip_rstrip (s : str) :
  lstrip s = s -> lstrip (rstrip s) = rstrip s.
Proof.
  destruct s as [|c s]; [done|]. cbn [lstrip].
  destruct (is_space c) eqn:Hc.
  - intros Hs. exfalso.
    assert (Hlen : forall t, (length (lstrip t) <= length t)%nat).
    { induction t as [|x t IHt]; [done|]. cbn [lstrip].
      destruct (is_space x); simpl; lia. }
    specialize (Hlen s). rewrite Hs in Hlen. simpl in Hlen. lia.
  - intros _. unfold rstrip. cbn [rev]. rewrite lstrip_snoc by done.
    rewrite rev_app_distr. cbn [rev app lstrip]. by rewrite Hc.
Qed.

(** [s.strip().strip() == s.strip()] *)
Lemma strip_idem (s : str) : strip (strip s) = strip s.
Proof.
  unfold strip.
  rewrite (lstrip_rstrip (lstrip s)) by apply lstrip_idem.
  apply rstrip_idem.
Qed.

Lemma tweet_text_trimmed (a : article) : strip (tweet_text a) = tweet_text a.
Proof.
  unfold tweet_text. destruct (truthy (tweetText a)); [apply strip_idem|done].
Qed.

(** X8: the last two statements of [scrape_last_hours] return the rows
    without their repetitions, rearranged: no record occurs twice, and
    records with the same timestamp keep the order in which they were
    collected (the sort is stable). *)
Theorem corpus_stable_without_repetition
        (utcoffset : Z -> Z) (rows : list row) :
  corpus utcoffset rows ≡ₚ dedupe rows
  /\ NoDup (corpus utcoffset rows)
  /\ (forall t, filter (fun r => time r = t) (corpus utcoffset rows)
               = filter (fun r => time r = t) (dedupe rows)).
Proof.
  split_and!.
  - apply sort_desc_perm.
  - unfold corpus. rewrite sort_desc_perm.
    apply (NoDup_fmap_1 key). rewrite dedupe_first.
    apply first_occurrences_NoDup.
  - intros t. apply sort_desc_same_time.
Qed.

(* ================================================================== *)
(** ** Further facts about the collection loop *)
(* ================================================================== *)

Section VerdictFacts.

Variable fromisoformat : str -> result parsed.
Variable utcoffset : Z -> Z.
Variable cutoff : Z.

Local Abbreviation visit := (visit fromisoformat utcoffset cutoff).
Local Abbreviation visit_all := (visit_all fromisoformat utcoffset cutoff).
Local Abbreviation verdict := (verdict fromisoformat utcoffset cutoff).

(** The loop body, told by the verdict on the article. *)
Lemma visit_verdict (rows : list row) (seen : gset (list N)) (a : article) :
  visit (rows, seen) a
  = match verdict a with
    | None => Ok (rows, seen)
    | Some (href, v) =>
        if bool_decide (href ∈ seen) then Ok (rows, seen)
        else match v with
             | Raise e => Raise e
             | Ok None => Ok (rows, seen)
             | Ok (Some r) => Ok (rows ++ [r], {[href]} ∪ seen)
             end
    end.
Proof.
  unfold Collector.visit, Further.verdict.
  destruct (link_href a) as [[href|]|]; [|done..].
  destruct (truthy href); cbn [negb orb]; [|done].
  case_bool_decide; [done|].
  destruct (time_datetime a) as [[dt_str|]|]; [|done..].
  destruct (truthy dt_str); cbn [negb]; [|done].
  destruct (fromisoformat _) as [dt|e]; cbn -[astimezone]; [|done].
  destruct (before dt cutoff) as [[]|e]; cbn -[astimezone]; [done| |done].
  by destruct (astimezone utcoffset dt).
Qed.

Lemma verdict_href (a : article) (href : str) (v : result (option row)) :
  verdict a = Some (href, v) -> link_href a = Some (Some href).
Proof.
  unfold Further.verdict. destruct (link_href a) as [[h|]|]; [|done..].
  destruct (truthy h); [|done]. by intros [= -> _].
Qed.

Lemma verdict_row (a : article) (href : str) (r : row) :
  verdict a = Some (href, Ok (Some r)) ->
  cutoff <= time r /\ text r = tweet_text a.
Proof.
  unfold Further.verdict. destruct (link_href a) as [[h|]|]; [|done..].
  destruct (truthy h); [|done].
  destruct (time_datetime a) as [[dt_str|]|]; [|done..].
  destruct (truthy dt_str); [|done].
  destruct (fromisoformat _) as [[t|t]|e]; cbn -[astimezone]; [|done..].
  destruct (Z.ltb_spec t cutoff); [done|].
  destruct (astimezone utcoffset (Aware t)) as [t'|e] eqn:Hzone; [|done].
  apply astimezone_Ok in Hzone as ->. cbn. by intros [= _ <-].
Qed.

Local Abbreviation settled := (settled fromisoformat utcoffset cutoff).

Lemma visit_settles (st st' : state) (a : article) :
  visit st a = Ok st' -> settled st' a.
Proof.
  destruct st as [rows seen]. unfold Further.settled. rewrite visit_verdict.
  destruct (verdict a) as [[href [[r|]|e]]|] eqn:Hv;
    try case_bool_decide; intros [= <-]; rewrite visit_verdict, Hv;
    try done; try by rewrite bool_decide_eq_true_2.
  - rewrite bool_decide_eq_true_2; [done|].
    by apply elem_of_union_l, elem_of_singleton.
  - by rewrite bool_decide_eq_false_2.
Qed.

Lemma seen_grows (st st' : state) (b : article) :
  visit st b = Ok st' -> st.2 ⊆ st'.2.
Proof.
  destruct st as [rows seen]. rewrite visit_verdict.
  destruct (verdict b) as [[href [[r|]|e]]|];
    try case_bool_decide; intros [= <-]; cbn [snd]; try done.
  apply union_subseteq_r.
Qed.

Lemma settled_grows (st st' : state) (a b : article) :
  settled st a -> visit st b = Ok st' -> settled st' a.
Proof.
  intros Ha Hb. pose proof (seen_grows _ _ _ Hb) as Hsub.
  destruct st as [rows seen], st' as [rows' seen']. cbn [snd] in Hsub.
  unfold Further.settled in *. rewrite visit_verdict in Ha |- *.
  destruct (verdict a) as [[href [[r|]|e]]|]; try done.
  - destruct (decide (href ∈ seen)) as [Hin|Hout].
    + rewrite bool_decide_eq_true_2; [done|]. by apply Hsub.
    + rewrite bool_decide_eq_false_2 in Ha by done.
      injection Ha as Hrows _. exfalso.
      apply (f_equal length) in Hrows. rewrite length_app in Hrows.
      simpl in Hrows. lia.
  - by destruct (bool_decide (href ∈ seen')).
  - destruct (decide (href ∈ seen)) as [Hin|Hout].
    + rewrite bool_decide_eq_true_2; [done|]. by apply Hsub.
    + by rewrite bool_decide_eq_false_2 in Ha.
Qed.

(** Renderings of articles already gone through can be left out. *)
Lemma visit_all_first_renderings (shown arts : list article) (st : state) :
  (forall a, a ∈ shown -> settled st a) ->
  visit_all arts st = visit_all (first_renderings shown arts) st.
Proof.
  revert shown st. induction arts as [|a arts IH]; intros shown st Hshown;
    [done|].
  cbn [Collector.visit_all first_renderings]. case_bool_decide as Hin.
  - rewrite (Hshown a Hin). cbn. by apply IH.
  - cbn [Collector.visit_all].
    destruct (visit st a) as [st'|e] eqn:Hv; [|done]. cbn.
    apply IH. intros b Hb. apply elem_of_cons in Hb as [->|Hb].
    + by eapply visit_settles.
    + eapply settled_grows; [by apply Hshown|exact Hv].
Qed.

(** Each record has its own identifier, and every identifier in [seen]
    is on the page. *)
Lemma visit_all_one_per_href (shown arts : list article) (st st' : state) :
  length st.1 = size st.2 -> st.2 ⊆ hrefs_of shown ->
  visit_all arts st = Ok st' ->
  length st'.1 = size st'.2 /\ st'.2 ⊆ hrefs_of (shown ++ arts).
Proof.
  revert shown st. induction arts as [|a arts IH]; intros shown st Hlen Hsub.
  - intros [= <-]. by rewrite app_nil_r.
  - cbn [Collector.visit_all].
    destruct (visit st a) as [st1|e] eqn:Hv; [|done]. cbn. intros Hrun.
    replace (shown ++ a :: arts) with ((shown ++ [a]) ++ arts)
      by (by rewrite <- app_assoc).
    apply (IH (shown ++ [a]) st1); [| |done].
    + destruct st as [rows seen]. rewrite visit_verdict in Hv.
      destruct (verdict a) as [[href [[r|]|e]]|];
        try case_bool_decide as Hseen; try discriminate Hv;
        injection Hv as <-; cbn [fst snd] in *; try done.
      rewrite length_app, size_union, size_singleton
        by (by apply disjoint_singleton_l).
      simpl. lia.
    + assert (Hgrow : hrefs_of shown ⊆ hrefs_of (shown ++ [a])).
      { unfold hrefs_of. rewrite omap_app, list_to_set_app.
        apply union_subseteq_l. }
      destruct st as [rows seen]. rewrite visit_verdict in Hv.
      destruct (verdict a) as [[href [[r|]|e]]|] eqn:Hver;
        try case_bool_decide; try discriminate Hv; injection Hv as <-;
        cbn [fst snd] in *;
        try (by etrans).
      apply union_least; [|by etrans].
      apply singleton_subseteq_l. unfold hrefs_of.
      rewrite omap_app, list_to_set_app. apply elem_of_union_r.
      cbn [omap list_omap]. rewrite (verdict_href _ _ _ Hver).
      cbn. by apply elem_of_union_l, elem_of_singleton.
Qed.

(** Every row of the loop is the record of an article it went through,
    not older than [cutoff]. *)
Lemma visit_all_rows (arts : list article) (st st' : state) (P : row -> Prop) :
  (forall r, In r st.1 -> P r) ->
  (forall a r, In a arts -> cutoff <= time r -> text r = tweet_text a -> P r) ->
  visit_all arts st = Ok st' ->
  forall r, In r st'.1 -> P r.
Proof.
  revert st. induction arts as [|a arts IH]; intros st Hst Harts.
  - by intros [= <-].
  - cbn [Collector.visit_all].
    destruct (visit st a) as [st1|e] eqn:Hv; [|done]. cbn.
    apply IH; [|intros b r Hb; apply Harts; by right].
    destruct st as [rows seen]. rewrite visit_verdict in Hv.
    destruct (verdict a) as [[href [[r0|]|e]]|] eqn:Hver;
      try case_bool_decide; try discriminate Hv; injection Hv as <-;
        cbn [fst snd] in *;
      try done.
    intros r Hr. apply in_app_or in Hr as [Hr|[<-|[]]]; [by apply Hst|].
    destruct (verdict_row _ _ _ Hver). apply (Harts a); [by left|done..].
Qed.

End VerdictFacts.

(* ================================================================== *)
(** ** Further properties of the Collector *)
(* ================================================================== *)

(** C7, as stated, fails.  On the page with the two posts of one
    second the loop, which tells items apart by their identifier,
    accumulates two rows under two identifiers; the final step, which
    tells rows apart by timestamp and text, drops the second: it is
    not a no-op, nor is it keyed by the identifier. *)
Lemma final_step_merges_rows_of_two_identifiers :
  let w := Samples.world_of None ∅ Samples.two_pictures in
  let r := Row 1704103200000000 [] in
  exists seen,
    visit_all Samples.fromisoformat Samples.zurich (now_utc w - hours 24)
              (rendered w) ([], ∅)
    = Ok ([r; r], seen)
    /\ size seen = 2%nat
    /\ dedupe [r; r] = [r]
    /\ fst (scrape_last_hours Samples.fromisoformat Samples.zurich USER 24 w)
       = Ok [r].
Proof.
  intros w r.
  destruct (visit_all Samples.fromisoformat Samples.zurich
              (now_utc w - hours 24) (rendered w) ([], ∅))
    as [[rows seen]|e] eqn:Hloop; [|by vm_compute in Hloop].
  assert (Hrows : rows = [r; r]).
  { apply (f_equal (fun v => match v with Ok st => st.1 | Raise _ => [] end))
      in Hloop. by vm_compute in Hloop. }
  destruct (visit_all_one_per_href Samples.fromisoformat Samples.zurich
              (now_utc w - hours 24) [] (rendered w) ([], ∅) (rows, seen))
    as [Hlen _]; [done|done|done|].
  cbn [fst snd] in Hlen. subst rows. exists seen.
  split_and!; [done|by rewrite <- Hlen|by vm_compute|by vm_compute].
Qed.

(** C7, amended: in every run that returns, the final step works on
    the rows the loop has accumulated, one per identifier seen.  It
    tells them apart by timestamp and text, keeps of the rows that
    agree on both the first one, and hands the rows kept to the sort:
    the output has no two records with the same timestamp and text,
    and the records in it are those in the rows.  It drops nothing
    exactly when no two rows agree on timestamp and text. *)
Theorem dedupe_keeps_first_occurrences
        (fromisoformat : str -> result parsed) (utcoffset : Z -> Z)
        (user : str) (hours_back : Z) (w : world) (out : list row) :
  fst (scrape_last_hours fromisoformat utcoffset user hours_back w) = Ok out ->
  exists rows seen,
    visit_all fromisoformat utcoffset (now_utc w - hours hours_back)
              (rendered w) ([], ∅)
    = Ok (rows, seen)
    /\ length rows = size seen
    /\ dedupe rows = first_occurrences ∅ rows
    /\ out = sort_desc utcoffset (first_occurrences ∅ rows)
    /\ NoDup (map key out)
    /\ (forall r, In r out <-> In r rows)
    /\ (dedupe rows = rows <-> NoDup rows)
    /\ (length out = length rows <-> NoDup rows).
Proof.
  intros Hrun.
  apply scrape_Ok in Hrun as (_ & [rows seen] & Hloop & ->).
  cbn [fst]. exists rows, seen.
  destruct (visit_all_one_per_href fromisoformat utcoffset
              (now_utc w - hours hours_back) [] (rendered w) ([], ∅)
              (rows, seen)) as [Hlen _]; [done|done|done|].
  split_and!.
  - exact Hloop.
  - exact Hlen.
  - apply dedupe_first.
  - unfold corpus. by rewrite dedupe_first.
  - apply corpus_keys_NoDup.
  - apply corpus_In.
  - symmetry. apply dedupe_id.
  - symmetry. apply corpus_full.
Qed.

Lemma dedupe_keeps_first_occurrences_witness :
  let w := Samples.world_of None ∅ Samples.two_pictures in
  let r := Row 1704103200000000 [] in
  exists rows seen,
    visit_all Samples.fromisoformat Samples.zurich (now_utc w - hours 24)
              (rendered w) ([], ∅)
    = Ok (rows, seen)
    /\ length rows = size seen
    /\ [r] = sort_desc Samples.zurich (first_occurrences ∅ rows).
Proof.
  intros w r.
  destruct (dedupe_keeps_first_occurrences Samples.fromisoformat
              Samples.zurich USER 24 w [r])
    as (rows & seen & Hloop & Hlen & _ & Hout & _);
    [vm_compute; reflexivity|].
  exists rows, seen. split_and!; [exact Hloop|exact Hlen|exact Hout].
Defined.

(** X6: what [scrape_last_hours] returns, or the exception it ends
    with, depends on the renderings only through the articles in the
    order in which they are first shown: an article shown again, in the
    same or a later rendering, changes nothing. *)
Theorem scrape_first_renderings
        (fromisoformat : str -> result parsed) (utcoffset : Z -> Z)
        (user : str) (hours_back : Z) (w w' : world) :
  now_utc w' = now_utc w ->
  first_renderings [] (rendered w') = first_renderings [] (rendered w) ->
  fst (scrape_last_hours fromisoformat utcoffset user hours_back w')
  = fst (scrape_last_hours fromisoformat utcoffset user hours_back w).
Proof.
  intros Hnow Hsame. rewrite !scrape_result, Hnow.
  destruct (cutoff_of (now_utc w) hours_back) as [cutoff|e]; [|done].
  cbn [mbind result_bind].
  rewrite (visit_all_first_renderings fromisoformat utcoffset _ []
             (rendered w'))
    by (intros a Ha; by apply elem_of_nil in Ha).
  rewrite (visit_all_first_renderings fromisoformat utcoffset _ []
             (rendered w))
    by (intros a Ha; by apply elem_of_nil in Ha).
  by rewrite Hsame.
Qed.

Lemma scrape_first_renderings_witness :
  fst (scrape_last_hours Samples.fromisoformat Samples.zurich USER 24
         (Samples.world_of None ∅
            [[Samples.headline_b; Samples.headline_b];
             [Samples.headline_a; Samples.headline_b]; [Samples.headline_a]]))
  = fst (scrape_last_hours Samples.fromisoformat Samples.zurich USER 24
           (Samples.world_of None ∅ Samples.two_headlines)).
Proof.
  apply (scrape_first_renderings Samples.fromisoformat Samples.zurich USER 24);
    vm_compute; reflexivity.
Defined.

(** X7: whatever the page shows, every record [scrape_last_hours]
    returns is not older than [cutoff = now_utc - hours_back], and its
    text is the trimmed text of a rendered article. *)
Theorem scrape_records_recent_and_trimmed
        (fromisoformat : str -> result parsed) (utcoffset : Z -> Z)
        (user : str) (hours_back : Z) (w : world) (out : list row) :
  fst (scrape_last_hours fromisoformat utcoffset user hours_back w) = Ok out ->
  forall r, In r out ->
    now_utc w - hours hours_back <= time r
    /\ strip (text r) = text r
    /\ exists a, In a (rendered w) /\ text r = tweet_text a.
Proof.
  intros Hrun. apply scrape_Ok in Hrun as (_ & st & Hloop & ->).
  intros r Hr. rewrite corpus_In in Hr.
  revert r Hr.
  apply (visit_all_rows fromisoformat utcoffset
           (now_utc w - hours hours_back) (rendered w) ([], ∅) st);
    [|  |done].
  - by intros r [].
  - intros a r Ha Htime Htext. split_and!; [done| |by exists a].
    rewrite Htext. apply tweet_text_trimmed.
Qed.

Lemma scrape_records_recent_and_trimmed_witness :
  let w := Samples.world_of None ∅ Samples.two_headlines in
  let r := Row 1704103200000000 (lit "Headline A") in
  now_utc w - hours 2 <= time r /\ strip (text r) = text r.
Proof.
  intros w r.
  destruct (scrape_records_recent_and_trimmed Samples.fromisoformat
              Samples.zurich USER 2 w [r])
    with (r := r) as (Hrecent & Htrim & _);
    [vm_compute; reflexivity|by left|]. by split.
Defined.

(** X9: [scrape_last_hours] never returns more records than there are
    distinct identifiers on the page: an identifier gives at most one
    record, however often and with whatever content it is shown. *)
Theorem scrape_one_record_per_href
        (fromisoformat : str -> result parsed) (utcoffset : Z -> Z)
        (user : str) (hours_back : Z) (w : world) (out : list row) :
  fst (scrape_last_hours fromisoformat utcoffset user hours_back w) = Ok out ->
  (length out <= size (hrefs_of (rendered w)))%nat.
Proof.
  intros Hrun. apply scrape_Ok in Hrun as (_ & st & Hloop & ->).
  destruct (visit_all_one_per_href fromisoformat utcoffset
              (now_utc w - hours hours_back) [] (rendered w) ([], ∅) st)
    as [Hlen Hsub]; [done|done|done|].
  etrans; [apply corpus_length|]. rewrite Hlen.
  by apply subseteq_size.
Qed.

Lemma scrape_one_record_per_href_witness :
  let w := Samples.world_of None ∅ Samples.two_headlines in
  (length [Row 1704103200000000 (lit "Headline A");
           Row 1704099600000000 (lit "Headline B")]
   <= size (hrefs_of (rendered w)))%nat.
Proof.
  intros w.
  apply (scrape_one_record_per_href Samples.fromisoformat Samples.zurich
           USER 24 w).
  vm_compute. reflexivity.
Defined.

(* ================================================================== *)
(** ** Further facts about the runs *)
(* ================================================================== *)

Section Confined.

Variable P : event -> bool.

Lemma confined_ret {A} (a : A) : confined P (mret a : M A).
Proof. intros w. split_and!; try done. exists []. by rewrite app_nil_r. Qed.

Lemma confined_raise {A} (e : exn) : confined P (raise e : M A).
Proof. intros w. split_and!; try done. exists []. by rewrite app_nil_r. Qed.

Lemma confined_lift {A} (r : result A) : confined P (lift r).
Proof. intros w. split_and!; try done. exists []. by rewrite app_nil_r. Qed.

Lemma confined_emit (ev : event) : P ev = true -> confined P (emit ev).
Proof.
  intros Hev w. split_and!; try done. exists [ev]. split; [done|].
  by constructor.
Qed.

Lemma confined_bind {A B} (m : M A) (f : A -> M B) :
  confined P m -> (forall a, confined P (f a)) -> confined P (m ≫= f).
Proof.
  intros Hm Hf w. rewrite M_bind_run.
  destruct (Hm w) as (Hfs & Hkey & Hgen & evs & Htr & Hev).
  destruct (m w) as [[a|e] w1]; cbn [snd] in *.
  - destruct (Hf a w1) as (Hfs' & Hkey' & Hgen' & evs' & Htr' & Hev').
    split_and!; [congruence..|]. exists (evs ++ evs').
    split; [by rewrite Htr', Htr, app_assoc|by apply Forall_app].
  - split_and!; try done. by exists evs.
Qed.

Lemma confined_getenv : confined P getenv.
Proof. intros w. split_and!; try done. exists []. by rewrite app_nil_r. Qed.

Lemma confined_now : confined P datetime_now.
Proof. intros w. split_and!; try done. exists []. by rewrite app_nil_r. Qed.

Lemma confined_exists (path : str) : confined P (exists_file path).
Proof. intros w. split_and!; try done. exists []. by rewrite app_nil_r. Qed.

Lemma confined_read (path : str) :
  P (EvRead path) = true -> confined P (read_file path).
Proof.
  intros Hev w. unfold read_file. destruct (files w !! path); cbn [snd].
  - split_and!; try done. exists [EvRead path]. split; [done|].
    by constructor.
  - split_and!; try done. exists []. by rewrite app_nil_r.
Qed.

Lemma confined_query : P EvQuery = true -> confined P query_selector_all.
Proof.
  intros Hev w. split_and!; try done. exists [EvQuery]. split; [done|].
  by constructor.
Qed.

Lemma confined_wheel : P EvWheel = true -> confined P mouse_wheel.
Proof.
  intros Hev w. split_and!; try done. exists [EvWheel]. split; [done|].
  by constructor.
Qed.

Lemma confined_generate (model_name : str) (parts : list str) :
  P (EvGenerate model_name parts) = true ->
  confined P (generate model_name parts).
Proof.
  intros Hev w. split_and!; try done. exists [EvGenerate model_name parts].
  split; [done|]. by constructor.
Qed.

End Confined.

Ltac confined_step :=
  lazymatch goal with
  | |- confined _ (mbind _ _) => apply confined_bind; [|intros ?]
  | |- confined _ (mret _) => apply confined_ret
  | |- confined _ (raise _) => apply confined_raise
  | |- confined _ (lift _) => apply confined_lift
  | |- confined _ (emit _) => apply confined_emit; reflexivity
  | |- confined _ getenv => apply confined_getenv
  | |- confined _ datetime_now => apply confined_now
  | |- confined _ (exists_file _) => apply confined_exists
  | |- confined _ (read_file _) => apply confined_read; reflexivity
  | |- confined _ query_selector_all => apply confined_query; reflexivity
  | |- confined _ mouse_wheel => apply confined_wheel; reflexivity
  | |- confined _ (generate _ _) => apply confined_generate; reflexivity
  end.

Ltac confine := repeat confined_step.

Section ScrapeRun.

Variable fromisoformat : str -> result parsed.
Variable utcoffset : Z -> Z.

Local Abbreviation visit_all := (visit_all fromisoformat utcoffset).
Local Abbreviation scroll_loop := (scroll_loop fromisoformat utcoffset).

Lemma scroll_loop_confined (cutoff : Z) (n : nat) (st : state) :
  confined is_collector_event (scroll_loop cutoff n st).
Proof.
  revert st. induction n as [|n IH]; intros st; cbn [Pipeline.scroll_loop];
    confine.
  apply IH.
Qed.

(** Every turn of the loop that the run gets through issues the same
    three requests. *)
Lemma scroll_loop_trace (cutoff : Z) (n : nat) (st st' : state) (w : world) :
  fst (scroll_loop cutoff n st w) = Ok st' ->
  trace (snd (scroll_loop cutoff n st w))
  = trace w ++ concat (replicate n scroll_events).
Proof.
  revert st w. induction n as [|n IH]; intros st w.
  - intros _. cbn. by rewrite app_nil_r.
  - rewrite scroll_loop_step.
    destruct (visit_all cutoff _ st) as [st1|e]; [|done].
    intros Hrun. rewrite (IH _ _ Hrun).
    cbn [log turn trace replicate concat].
    unfold scroll_events at 2. by rewrite <- !app_assoc.
Qed.

End ScrapeRun.

(* ================================================================== *)
(** ** Further properties of the Collector's run *)
(* ================================================================== *)

(** X10: [scrape_last_hours] writes no file and issues no request but
    those to the browser and the reading of the cookie file, whether
    it returns or raises. *)
Theorem scrape_changes_no_file
        (fromisoformat : str -> result parsed) (utcoffset : Z -> Z)
        (user : str) (hours_back : Z) (w : world) :
  let run := scrape_last_hours fromisoformat utcoffset user hours_back w in
  files (snd run) = files w
  /\ exists evs,
      trace (snd run) = trace w ++ evs
      /\ Forall (fun ev => is_collector_event ev = true) evs.
Proof.
  assert (Hc : confined is_collector_event
                 (scrape_last_hours fromisoformat utcoffset user hours_back)).
  { unfold scrape_last_hours. confine.
    - match goal with b : bool |- _ => destruct b end; confine.
    - apply scroll_loop_confined. }
  destruct (Hc w) as (Hfs & _ & _ & Hev). by split.
Qed.

(** X11: when [scrape_last_hours] returns, it has launched the browser,
    read the cookie file if there is one, requested the profile page,
    tried the three consent buttons, gone [MAX_SCROLLS] times through
    query, wheel and wait, whatever the page showed, and closed the
    browser: there is no early stop. *)
Theorem scrape_scrolls_to_the_end
        (fromisoformat : str -> result parsed) (utcoffset : Z -> Z)
        (user : str) (hours_back : Z) (w : world) (out : list row) :
  fst (scrape_last_hours fromisoformat utcoffset user hours_back w) = Ok out ->
  trace (snd (scrape_last_hours fromisoformat utcoffset user hours_back w))
  = trace w
    ++ [EvLaunch]
    ++ (if bool_decide (is_Some (files w !! COOKIES_FILE))
        then [EvRead COOKIES_FILE] else [])
    ++ [EvGoto (lit "https://x.com/" ++ user); EvClick (lit "Accept");
        EvClick (lit "I agree"); EvClick (lit "Allow all")]
    ++ concat (replicate MAX_SCROLLS scroll_events)
    ++ [EvClose].
Proof.
  destruct (cutoff_of (now_utc w) hours_back) as [cutoff|e] eqn:Hcut;
    [|by rewrite (scrape_overflow _ _ _ _ _ e)].
  unfold scrape_last_hours.
  rewrite M_bind_run. cbn [datetime_now].
  rewrite M_bind_run. unfold lift. rewrite Hcut.
  rewrite M_bind_run. cbn [emit].
  rewrite M_bind_run. cbn [exists_file].
  rewrite M_bind_run.
  set (w1 := log EvLaunch w).
  set (cookies := if bool_decide (is_Some (files w !! COOKIES_FILE))
                  then [EvRead COOKIES_FILE] else []).
  assert (Hpre : exists w2,
             trace w2 = trace w ++ [EvLaunch] ++ cookies
             /\ (if bool_decide (is_Some (files w1 !! COOKIES_FILE))
                 then read_file COOKIES_FILE ≫= (fun _ => mret ())
                 else mret ()) w1 = (Ok (), w2)).
  { unfold cookies. change (files w1) with (files w).
    case_bool_decide as Hc.
    - destruct Hc as [c Hc]. rewrite M_bind_run. unfold read_file.
      change (files w1) with (files w). rewrite Hc.
      eexists. split; [|reflexivity]. cbn. by rewrite <- app_assoc.
    - eexists. split; [|reflexivity]. done. }
  destruct Hpre as (w2 & Htr & ->).
  repeat (rewrite M_bind_run; cbn [emit]).
  match goal with
  | |- context [scroll_loop _ _ ?c ?n ?s ?w'] =>
      pose proof (fun st' => scroll_loop_trace fromisoformat utcoffset
                               c n s st' w')
        as Hloop;
      destruct (scroll_loop fromisoformat utcoffset c n s w') as [[st|e] w3]
  end; [|done].
  intros _. specialize (Hloop st eq_refl). cbn [snd log trace] in Hloop.
  rewrite !M_bind_run. cbn [emit mret M_ret snd log trace].
  rewrite Hloop, Htr. by rewrite <- !app_assoc.
Qed.

Lemma scrape_scrolls_to_the_end_witness :
  let w := Samples.world_of None ∅ Samples.two_headlines in
  length (trace (snd (scrape_last_hours Samples.fromisoformat Samples.zurich
                                        USER 24 w)))
  = (1 + 4 + 3 * 80 + 1)%nat.
Proof.
  intros w.
  rewrite (scrape_scrolls_to_the_end Samples.fromisoformat Samples.zurich
             USER 24 w
             [Row 1704103200000000 (lit "Headline A");
              Row 1704099600000000 (lit "Headline B")]);
    vm_compute; reflexivity.
Defined.

(* ================================================================== *)
(** ** Further facts about the summarization *)
(* ================================================================== *)

Section SummaryFacts.

Variables custom_prompt model_name : str.

Local Abbreviation requests := (map_requests custom_prompt).
Local Abbreviation sent := (map (EvGenerate model_name)).

(** One turn of the loop over the chunks. *)
Lemma summarize_loop_step (n i : nat) (ch : str) (rest outputs : list str)
      (w : world) :
  summarize_loop custom_prompt model_name n i (ch :: rest) outputs w
  = let parts := [SYSTEM; map_prompt custom_prompt n i ch] in
    match generate_content w model_name parts with
    | Ok resp =>
        summarize_loop custom_prompt model_name n (S i) rest
                       (outputs ++ [strip (default [] resp)])
                       (log (EvGenerate model_name parts) w)
    | Raise e => (Raise e, log (EvGenerate model_name parts) w)
    end.
Proof.
  cbn [summarize_loop]. unfold mbind, M_bind, generate. fold (map_prompt custom_prompt n i ch).
  by destruct (generate_content w model_name _).
Qed.

Lemma summarize_loop_confined (n i : nat) (chunks outputs : list str) :
  confined is_generate
           (summarize_loop custom_prompt model_name n i chunks outputs).
Proof.
  revert i outputs. induction chunks as [|ch rest IH]; intros i outputs;
    cbn [summarize_loop]; confine. apply IH.
Qed.

Lemma final_synthesis_confined (per_chunk : list str) :
  confined is_generate (final_synthesis per_chunk custom_prompt model_name).
Proof. unfold final_synthesis. confine. Qed.

Lemma final_synthesis_run (per_chunk : list str) (w : world) :
  final_synthesis per_chunk custom_prompt model_name w
  = let parts := [reduce_prompt custom_prompt per_chunk] in
    (match generate_content w model_name parts with
     | Ok resp => Ok (strip (default [] resp))
     | Raise e => Raise e
     end,
     log (EvGenerate model_name parts) w).
Proof.
  unfold final_synthesis, mbind, M_bind, generate.
  fold (reduce_prompt custom_prompt per_chunk).
  by destruct (generate_content w model_name _).
Qed.

(** When the loop returns, every request was answered, and the outputs
    are the answers in the order of the chunks. *)
Lemma summarize_loop_Ok (n i : nat) (chunks outputs outs : list str)
      (w : world) :
  fst (summarize_loop custom_prompt model_name n i chunks outputs w) = Ok outs ->
  outs = outputs ++ map (answer w model_name) (requests n i chunks)
  /\ trace (snd (summarize_loop custom_prompt model_name n i chunks outputs w))
     = trace w ++ sent (requests n i chunks)
  /\ Forall (answered w model_name) (requests n i chunks).
Proof.
  revert i outputs w. induction chunks as [|ch rest IH]; intros i outputs w.
  - cbn. intros [= <-]. by rewrite !app_nil_r.
  - rewrite summarize_loop_step. cbn zeta. cbn [map_requests map].
    destruct (generate_content w model_name _) as [resp|e] eqn:Hgen; [|done].
    intros Hrun. destruct (IH _ _ _ Hrun) as (-> & -> & Hall).
    unfold answer at 2. rewrite Hgen. cbn [log trace].
    split_and!; [by rewrite <- app_assoc|by rewrite <- app_assoc|].
    constructor; [by eexists|exact Hall].
Qed.

Lemma summarize_loop_answered (n i : nat) (chunks outputs : list str)
      (w : world) :
  Forall (answered w model_name) (requests n i chunks) ->
  exists outs,
    fst (summarize_loop custom_prompt model_name n i chunks outputs w) = Ok outs.
Proof.
  revert i outputs w. induction chunks as [|ch rest IH]; intros i outputs w.
  - intros _. by eexists.
  - cbn [map_requests]. intros Hall. apply Forall_cons in Hall as [[r Hr] Hall].
    rewrite summarize_loop_step. cbn zeta. rewrite Hr. by apply IH.
Qed.

(** The loop stops at the first request that raises. *)
Lemma summarize_loop_fails (n i : nat) (pre : list str) (ch : str)
      (post outputs : list str) (e : exn) (w : world) :
  Forall (answered w model_name) (requests n i pre) ->
  generate_content w model_name
    [SYSTEM; map_prompt custom_prompt n (i + length pre) ch] = Raise e ->
  let run := summarize_loop custom_prompt model_name n i
                            (pre ++ ch :: post) outputs w in
  fst run = Raise e
  /\ trace (snd run) = trace w ++ sent (requests n i (pre ++ [ch])).
Proof.
  revert i outputs w. induction pre as [|c pre IH]; intros i outputs w Hall Hfail.
  - cbn [app length] in *. rewrite Nat.add_0_r in Hfail.
    cbn zeta. rewrite summarize_loop_step. cbn zeta. by rewrite Hfail.
  - cbn [map_requests app length] in *.
    apply Forall_cons in Hall as [[r Hr] Hall].
    cbn zeta. rewrite summarize_loop_step. cbn zeta. rewrite Hr.
    destruct (IH (S i) (outputs ++ [strip (default [] r)])
                 (log (EvGenerate model_name
                         [SYSTEM; map_prompt custom_prompt n i c]) w))
      as [Hres Htr].
    + exact Hall.
    + cbn [log generate_content].
      by replace (S i + length pre)%nat with (i + S (length pre))%nat by lia.
    + cbn zeta in Hres, Htr. rewrite Hres, Htr. cbn [log trace map].
      by rewrite <- app_assoc.
Qed.

End SummaryFacts.

(** [summarize_tweets_to_md], branch by branch. *)
Lemma summarize_run
      (tweets_path output_md custom_prompt model_name : str)
      (max_chars_per_chunk : Z) (w : world) :
  summarize_tweets_to_md tweets_path output_md custom_prompt model_name
                         max_chars_per_chunk w
  = match environ_key w with
    | Some k =>
        if truthy k then
          let w1 := log (EvConfigure k) w in
          match files w !! tweets_path with
          | Some content =>
              let w2 := log (EvRead tweets_path) w1 in
              let raw := strip (universal_newlines content) in
              if negb (truthy raw)
              then (Raise (ValueError (lit "Tweet file is empty: "
                                       ++ tweets_path)), w2)
              else
                let chunks := chunk_text raw max_chars_per_chunk in
                match summarize_chunks chunks custom_prompt model_name w2 with
                | (Ok per_chunk, w3) =>
                    match final_synthesis per_chunk custom_prompt
                                          model_name w3 with
                    | (Ok md, w4) =>
                        let written := if encodable md then md else [] in
                        (if encodable md
                         then Ok (output_md, len raw,
                                  Z.of_nat (length chunks))
                         else Raise UnicodeEncodeError,
                         log (EvWrite output_md written)
                             (store output_md written w4))
                    | (Raise e, w4) => (Raise e, w4)
                    end
                | (Raise e, w3) => (Raise e, w3)
                end
          | None => (Raise (FileNotFoundError tweets_path), w1)
          end
        else (Raise (RuntimeError MISSING_KEY), w)
    | None => (Raise (RuntimeError MISSING_KEY), w)
    end.
Proof.
  unfold summarize_tweets_to_md, require_gemini, load_tweets.
  rewrite !M_bind_run. cbn [getenv].
  destruct (environ_key w) as [k|]; [|done].
  destruct (truthy k); [|done]. cbn [emit].
  rewrite !M_bind_run. unfold read_file. cbn [log files].
  destruct (files w !! tweets_path) as [content|]; [|done].
  cbn [mret M_ret].
  destruct (negb (truthy (strip (universal_newlines content)))); [done|].
  rewrite M_bind_run.
  destruct (summarize_chunks _ _ _ _) as [[per_chunk|e] w3]; [|done].
  rewrite M_bind_run.
  destruct (final_synthesis _ _ _ _) as [[md|e] w4]; [|done].
  rewrite M_bind_run, write_file_run. cbn zeta.
  by destruct (encodable md).
Qed.

(** X20: widening the window never loses a record: over the same
    renderings, with identifiers that keep their timestamp and text,
    every record returned for [hours_back1] is returned for any
    [hours_back2 >= hours_back1]. *)
Theorem wider_window_keeps_records
        (fromisoformat : str -> result parsed) (utcoffset : Z -> Z)
        (user : str) (hours_back1 hours_back2 : Z) (w : world)
        (out1 out2 : list row) :
  stable_identity (rendered w) ->
  hours_back1 <= hours_back2 ->
  fst (scrape_last_hours fromisoformat utcoffset user hours_back1 w)
  = Ok out1 ->
  fst (scrape_last_hours fromisoformat utcoffset user hours_back2 w)
  = Ok out2 ->
  forall r, In r out1 -> In r out2.
Proof.
  intros Hstable Hle Hrun1 Hrun2 r Hr.
  apply (scrape_window fromisoformat utcoffset user hours_back1 w out1
           Hstable Hrun1)
    in Hr as (a & Ha & href & t & Hitem & Hcut & ->).
  apply (scrape_window fromisoformat utcoffset user hours_back2 w out2
           Hstable Hrun2).
  exists a. split; [done|]. exists href, t. split_and!; [done| |done].
  unfold hours in *. lia.
Qed.

Lemma wider_window_keeps_records_witness :
  let a := Row 1704103200000000 (lit "Headline A") in
  let b := Row 1704099600000000 (lit "Headline B") in
  In a [a; b].
Proof.
  intros a b.
  apply (wider_window_keeps_records Samples.fromisoformat Samples.zurich
           USER 2 24
           (Samples.world_of None ∅ Samples.two_headlines) [a] [a; b]);
    [apply two_headlines_stable|lia|vm_compute; reflexivity
    |vm_compute; reflexivity|by left].
Defined.

(** X21: a timestamp attribute that reads as a datetime without UTC
    offset is not skipped either: comparing it with the cutoff raises
    a [TypeError] that leaves [scrape_last_hours], whenever the run got
    as far as the loop (line 71 having told the cutoff). *)
Theorem offsetless_timestamp_aborts
        (fromisoformat : str -> result parsed) (utcoffset : Z -> Z)
        (user : str) (hours_back : Z) (w : world)
        (a : article) (arts : list article) (rest : list (list article))
        (href dt_str : str) (wall : Z) :
  renders w = (a :: arts) :: rest ->
  link_href a = Some (Some href) -> href <> [] ->
  time_datetime a = Some (Some dt_str) -> dt_str <> [] ->
  fromisoformat (replace (lit "Z") (lit "+00:00") dt_str) = Ok (Naive wall) ->
  fst (scrape_last_hours fromisoformat utcoffset user hours_back w)
  = match cutoff_of (now_utc w) hours_back with
    | Ok _ =>
        Raise (TypeError
                 (lit "can't compare offset-naive and offset-aware datetimes"))
    | Raise overflow => Raise overflow
    end.
Proof.
  intros Hr Hl Hh Ht Hd Hp. rewrite scrape_result.
  destruct (cutoff_of (now_utc w) hours_back) as [cutoff|overflow]; [|done].
  cbn [mbind result_bind]. unfold rendered.
  rewrite Hr. cbn [MAX_SCROLLS take concat app Collector.visit_all].
  rewrite visit_verdict. unfold verdict. rewrite Hl, Ht.
  apply truthy_true in Hh, Hd. rewrite Hh, Hd, Hp.
  by rewrite bool_decide_eq_false_2 by apply not_elem_of_empty.
Qed.

Lemma offsetless_timestamp_aborts_witness :
  let a := Article (Some (Some (lit "/financialjuice/status/4")))
                   (Some (Some (lit "2024-01-01T10:00:00")))
                   [lit "Headline D"] in
  fst (scrape_last_hours Samples.fromisoformat Samples.zurich USER 24
         (Samples.world_of None ∅ [[a]]))
  = Raise (TypeError
             (lit "can't compare offset-naive and offset-aware datetimes")).
Proof.
  intros a.
  rewrite (offsetless_timestamp_aborts Samples.fromisoformat Samples.zurich
             USER 24
             (Samples.world_of None ∅ [[a]]) a [] []
             (lit "/financialjuice/status/4") (lit "2024-01-01T10:00:00")
             1704103200000000);
    first [ reflexivity | discriminate ].
Defined.

(* ================================================================== *)
(** ** Further properties of the summarization *)
(* ================================================================== *)

Lemma map_requests_length (custom_prompt : str) (n i : nat) (chunks : list str) :
  length (map_requests custom_prompt n i chunks) = length chunks.
Proof.
  revert i. induction chunks as [|ch rest IH]; intros i; [done|].
  cbn [map_requests length]. by rewrite IH.
Qed.

(** X12: if the service answers every request, [summarize_chunks] sends
    one request per chunk, in the order of the chunks, each holding the
    chunk and its position, and returns the trimmed answers in that
    order; it writes no file. *)
Theorem summarize_chunks_in_order
        (chunks : list str) (custom_prompt model_name : str) (w : world) :
  let reqs := map_requests custom_prompt (length chunks) 1 chunks in
  let run := summarize_chunks chunks custom_prompt model_name w in
  Forall (answered w model_name) reqs ->
  fst run = Ok (map (answer w model_name) reqs)
  /\ trace (snd run) = trace w ++ map (EvGenerate model_name) reqs
  /\ files (snd run) = files w
  /\ length reqs = length chunks.
Proof.
  intros reqs run Hall. unfold run, summarize_chunks.
  destruct (summarize_loop_answered custom_prompt model_name (length chunks)
              1 chunks [] w Hall) as [outs Houts].
  destruct (summarize_loop_Ok custom_prompt model_name _ _ _ _ _ _ Houts)
    as (Hout & Htr & _).
  destruct (summarize_loop_confined custom_prompt model_name (length chunks)
              1 chunks [] w) as (Hfs & _).
  split_and!; [by rewrite Houts, Hout|done|done|].
  apply map_requests_length.
Qed.

Lemma summarize_chunks_in_order_witness :
  let w := Samples.world_of (Some (lit "k")) ∅ [] in
  fst (summarize_chunks [lit "a" ++ BLANK; lit "b" ++ BLANK]
                        CUSTOM_PROMPT MODEL_NAME w)
  = Ok [[]; []].
Proof.
  intros w.
  destruct (summarize_chunks_in_order [lit "a" ++ BLANK; lit "b" ++ BLANK]
              CUSTOM_PROMPT MODEL_NAME w) as (Hres & _).
  - repeat constructor; by exists None.
  - exact Hres.
Defined.

(** X13: [summarize_chunks] stops at the first request the service
    fails: the exception leaves it, the chunks after that one are never
    sent, and the answers already received are dropped. *)
Theorem summarize_chunks_stops_at_failure
        (pre : list str) (ch : str) (post : list str)
        (custom_prompt model_name : str) (e : exn) (w : world) :
  let chunks := pre ++ ch :: post in
  let n := length chunks in
  Forall (answered w model_name) (map_requests custom_prompt n 1 pre) ->
  generate_content w model_name
    [SYSTEM; map_prompt custom_prompt n (1 + length pre) ch] = Raise e ->
  let run := summarize_chunks chunks custom_prompt model_name w in
  fst run = Raise e
  /\ trace (snd run)
     = trace w ++ map (EvGenerate model_name)
                      (map_requests custom_prompt n 1 (pre ++ [ch])).
Proof.
  intros chunks n Hall Hfail. unfold summarize_chunks.
  by apply summarize_loop_fails.
Qed.

Lemma summarize_chunks_stops_at_failure_witness :
  let down (model_name : str) (parts : list str) : result (option str) :=
    Raise (ServiceError (lit "quota")) in
  let w := World (Some (lit "k")) ∅ 0 [] down [] in
  fst (summarize_chunks [lit "a" ++ BLANK; lit "b" ++ BLANK]
                        CUSTOM_PROMPT MODEL_NAME w)
  = Raise (ServiceError (lit "quota")).
Proof.
  intros down w.
  apply (summarize_chunks_stops_at_failure [] (lit "a" ++ BLANK)
           [lit "b" ++ BLANK] CUSTOM_PROMPT MODEL_NAME
           (ServiceError (lit "quota")) w); [constructor|reflexivity].
Defined.


(** X15: when [summarize_tweets_to_md] returns, the key was set and the
    corpus, read with its line endings turned into line feeds, not
    blank; it has configured the client, read the corpus, sent one
    request per chunk in order, then one synthesis request holding the
    answers in that order, and written the trimmed answer to it, a
    text UTF-8 can encode, into [output_md]; it returns the path, the
    length of the stripped corpus and the number of chunks. *)
Theorem summarize_returns
        (tweets_path output_md custom_prompt model_name : str)
        (max_chars_per_chunk : Z) (w : world) (res : str * Z * Z) :
  let run := summarize_tweets_to_md tweets_path output_md custom_prompt
                                    model_name max_chars_per_chunk w in
  fst run = Ok res ->
  exists api_key content,
    environ_key w = Some api_key /\ api_key <> []
    /\ files w !! tweets_path = Some content
    /\ let raw := strip (universal_newlines content) in
       let chunks := chunk_text raw max_chars_per_chunk in
       let reqs := map_requests custom_prompt (length chunks) 1 chunks in
       let partials := map (answer w model_name) reqs in
       let md := answer w model_name [reduce_prompt custom_prompt partials] in
       raw <> []
       /\ res = (output_md, len raw, Z.of_nat (length chunks))
       /\ encodable md = true
       /\ trace (snd run)
          = trace w ++ [EvConfigure api_key; EvRead tweets_path]
            ++ map (EvGenerate model_name) reqs
            ++ [EvGenerate model_name [reduce_prompt custom_prompt partials];
                EvWrite output_md md]
       /\ files (snd run) = <[output_md := md]> (files w).
Proof.
  intros run. unfold run. rewrite summarize_run.
  destruct (environ_key w) as [k|]; [|done].
  destruct (truthy k) eqn:Hk; [|done]. apply truthy_true in Hk.
  destruct (files w !! tweets_path) as [content|]; [|done]. cbn zeta.
  set (raw := strip (universal_newlines content)).
  destruct (truthy raw) eqn:Hraw; cbn [negb]; [|done].
  apply truthy_true in Hraw.
  set (w2 := log (EvRead tweets_path) (log (EvConfigure k) w)).
  set (chunks := chunk_text raw max_chars_per_chunk).
  pose proof (fun outs => summarize_loop_Ok custom_prompt model_name
                (length chunks) 1 chunks [] outs w2) as Hloop.
  destruct (summarize_loop_confined custom_prompt model_name
              (length chunks) 1 chunks [] w2) as (Hfs3 & _ & Hgen3 & _).
  fold (summarize_chunks chunks custom_prompt model_name) in Hloop, Hfs3, Hgen3.
  destruct (summarize_chunks chunks _ _ w2) as [[per_chunk|e] w3];
    cbn [fst snd] in *; [|done].
  destruct (Hloop per_chunk eq_refl) as (Hper & Htr3 & _).
  cbn [app] in Hper. rewrite final_synthesis_run. cbn zeta.
  destruct (generate_content w3 model_name _) as [resp|e] eqn:Hfin; [|done].
  destruct (encodable (strip (default [] resp))) eqn:Henc; [|done].
  intros [= <-]. exists k, content.
  change (answer w2 model_name) with (answer w model_name) in Hper.
  change (generate_content w2) with (generate_content w) in Hgen3.
  assert (Hmd : strip (default [] resp)
                = answer w model_name [reduce_prompt custom_prompt per_chunk]).
  { unfold answer. by rewrite <- Hgen3, Hfin. }
  rewrite Hmd in Henc |- *. rewrite Hper in Henc |- *.
  split_and!; try done.
  - cbn [log store trace snd]. rewrite Htr3. unfold w2. cbn [log trace].
    by rewrite <- !app_assoc.
  - cbn [log store files snd]. by rewrite Hfs3.
Qed.

Lemma summarize_returns_witness :
  let file := lit "2024-01-01 11:00:00 CET | Headline A" ++ [CR; LF; CR; LF] in
  let w := Samples.world_of (Some (lit "k")) {[ OUT_TXT := file ]} [] in
  files (snd (summarize_tweets_to_md OUT_TXT (lit "summary.md") CUSTOM_PROMPT
                                     MODEL_NAME 15000 w))
  !! lit "summary.md" = Some [].
Proof.
  intros file w.
  destruct (summarize_returns OUT_TXT (lit "summary.md") CUSTOM_PROMPT
              MODEL_NAME 15000 w (lit "summary.md", 36, 1))
    as (k & content & _ & _ & _ & _ & _ & _ & _ & Hfiles);
    [vm_compute; reflexivity|].
  rewrite Hfiles. vm_compute. reflexivity.
Defined.

Lemma chunk_text_cons (s : str) (max_chars : Z) :
  exists ch rest, chunk_text s max_chars = ch :: rest.
Proof.
  destruct (chunk_text_partition s max_chars) as (gs & -> & Hcat & _).
  destruct gs as [|g gs]; [|by eexists _, _].
  symmetry in Hcat. apply map_eq_nil in Hcat.
  by apply split_nonempty in Hcat.
Qed.

(** With the key set and the corpus not blank, the request for the
    first chunk is sent, whatever happens afterwards. *)
Lemma summarize_asks
      (tweets_path output_md custom_prompt model_name : str)
      (max_chars_per_chunk : Z) (w : world) (api_key content : str) :
  environ_key w = Some api_key -> api_key <> [] ->
  files w !! tweets_path = Some content -> strip content <> [] ->
  exists evs,
    trace (snd (summarize_tweets_to_md tweets_path output_md custom_prompt
                                       model_name max_chars_per_chunk w))
    = trace w ++ [EvConfigure api_key; EvRead tweets_path] ++ evs
    /\ Exists (fun ev => is_generate ev = true) evs.
Proof.
  intros Hkey Hk Hfile Hraw. rewrite summarize_run, Hkey, Hfile.
  rewrite <- universal_newlines_blank in Hraw.
  apply truthy_true in Hk, Hraw. rewrite Hk. cbn zeta. rewrite Hraw.
  cbn [negb].
  set (raw := strip (universal_newlines content)).
  set (w2 := log (EvRead tweets_path) (log (EvConfigure api_key) w)).
  assert (Htr2 : trace w2
                 = trace w ++ [EvConfigure api_key; EvRead tweets_path])
    by (unfold w2; cbn [log trace]; by rewrite <- app_assoc).
  destruct (chunk_text_cons raw max_chars_per_chunk)
    as (ch & rest & Hchunks).
  rewrite Hchunks. unfold summarize_chunks. rewrite summarize_loop_step.
  cbn zeta.
  set (g := EvGenerate model_name
              [SYSTEM; map_prompt custom_prompt (length (ch :: rest)) 1 ch]).
  destruct (generate_content w2 model_name _) as [resp|e].
  - destruct (summarize_loop_confined custom_prompt model_name
                (length (ch :: rest)) 2 rest ([] ++ [strip (default [] resp)])
                (log g w2)) as (_ & _ & _ & evs3 & Htr3 & _).
    destruct (summarize_loop _ _ _ _ rest _ (log g w2)) as [[per_chunk|e] w3];
      cbn [snd] in Htr3.
    + destruct (final_synthesis_confined custom_prompt model_name
                  per_chunk w3) as (_ & _ & _ & evs4 & Htr4 & _).
      destruct (final_synthesis _ _ _ w3) as [[md|e] w4]; cbn [snd] in *.
      * eexists (g :: evs3 ++ evs4 ++ [EvWrite output_md _]).
        split; [|by left]. cbn [snd log store trace] in *.
        rewrite Htr4, Htr3, Htr2. by rewrite <- !app_assoc.
      * exists (g :: evs3 ++ evs4). split; [|by left].
        cbn [snd log trace] in *. rewrite Htr4, Htr3, Htr2.
        by rewrite <- !app_assoc.
    + exists (g :: evs3). split; [|by left].
      cbn [snd log trace] in *. rewrite Htr3, Htr2. by rewrite <- !app_assoc.
  - exists [g]. split; [|by left].
    cbn [snd log trace]. rewrite Htr2. by rewrite <- !app_assoc.
Qed.



Lemma summarize_other_files
      (tweets_path output_md custom_prompt model_name : str)
      (max_chars_per_chunk : Z) (w : world) (path : str) :
  path <> output_md ->
  files (snd (summarize_tweets_to_md tweets_path output_md custom_prompt
                                     model_name max_chars_per_chunk w))
  !! path = files w !! path.
Proof.
  intros Hne. rewrite summarize_run.
  destruct (environ_key w) as [k|]; [|done].
  destruct (truthy k); [|done].
  destruct (files w !! tweets_path) as [content|]; [|done]. cbn zeta.
  set (raw := strip (universal_newlines content)).
  destruct (negb (truthy raw)); [done|].
  set (w2 := log (EvRead tweets_path) (log (EvConfigure k) w)).
  destruct (summarize_loop_confined custom_prompt model_name
              (length (chunk_text raw max_chars_per_chunk)) 1
              (chunk_text raw max_chars_per_chunk) [] w2)
    as (Hfs3 & _).
  fold (summarize_chunks (chunk_text raw max_chars_per_chunk)
                         custom_prompt model_name) in Hfs3.
  destruct (summarize_chunks _ _ _ w2) as [[per_chunk|e] w3];
    cbn [fst snd] in *; [|by rewrite Hfs3].
  destruct (final_synthesis_confined custom_prompt model_name per_chunk w3)
    as (Hfs4 & _).
  destruct (final_synthesis _ _ _ w3) as [[md|e] w4]; cbn [fst snd] in *.
  - cbn [log store files]. rewrite lookup_insert_ne by done.
    by rewrite Hfs4, Hfs3.
  - by rewrite Hfs4, Hfs3.
Qed.

(** [main], branch by branch. *)
Lemma main_run (fromisoformat : str -> result parsed) (utcoffset : Z -> Z)
      (strftime : Z -> str) (w : world) :
  main fromisoformat utcoffset strftime w
  = match scrape_last_hours fromisoformat utcoffset USER HOURS_BACK w with
    | (Ok rows, w1) =>
        let text := persisted strftime rows in
        let w2 := log (EvWrite OUT_TXT text) (store OUT_TXT text w1) in
        if encodable (serialize strftime rows) then
          match summarize_tweets_to_md OUT_TXT (lit "summary.md")
                  CUSTOM_PROMPT MODEL_NAME 15000 w2 with
          | (Ok _, w3) => (Ok (), w3)
          | (Raise e, w3) => (Raise e, w3)
          end
        else (Raise UnicodeEncodeError, w2)
    | (Raise e, w1) => (Raise e, w1)
    end.
Proof.
  unfold main. rewrite M_bind_run.
  destruct (scrape_last_hours _ _ _ _ w) as [[rows|e] w1]; [|done].
  rewrite M_bind_run, save_run. cbn zeta.
  destruct (encodable (serialize strftime rows)); [|done].
  rewrite M_bind_run.
  by destruct (summarize_tweets_to_md _ _ _ _ _ _) as [[?|?] ?].
Qed.

(** X17: whenever the collection returns, [main] leaves in [OUT_TXT]
    one block ["<time> | <text>"] with a blank line after it for each
    record before the first one UTF-8 cannot encode, whether the
    summarization that follows returns or raises: for all the records
    when there is no such record, and otherwise [main] ends there with
    the encoding error. *)
Theorem main_persists_the_corpus
        (fromisoformat : str -> result parsed) (utcoffset : Z -> Z)
        (strftime : Z -> str) (w : world) (rows : list row) :
  fst (scrape_last_hours fromisoformat utcoffset USER HOURS_BACK w)
  = Ok rows ->
  let run := main fromisoformat utcoffset strftime w in
  files (snd run) !! OUT_TXT = Some (persisted strftime rows)
  /\ (if encodable (serialize strftime rows)
      then persisted strftime rows = serialize strftime rows
      else fst run = Raise UnicodeEncodeError).
Proof.
  intros Hrows run. unfold run. rewrite main_run.
  destruct (scrape_last_hours _ _ _ _ w) as [[rows'|e] w1]; [|done].
  cbn [fst] in Hrows. injection Hrows as ->. cbn zeta.
  set (w2 := log _ (store _ _ w1)).
  destruct (encodable (serialize strftime rows)) eqn:Henc.
  - pose proof (summarize_other_files OUT_TXT (lit "summary.md")
                  CUSTOM_PROMPT MODEL_NAME 15000 w2 OUT_TXT) as Hkeep.
    split; [|by apply persisted_encodable].
    destruct (summarize_tweets_to_md _ _ _ _ _ w2) as [[res|e] w3];
      cbn [snd] in *; (rewrite Hkeep; [|by vm_compute]);
      unfold w2; cbn [log store files]; apply lookup_insert_eq.
  - split; [|done]. unfold w2. cbn [snd log store files].
    apply lookup_insert_eq.
Qed.

Lemma main_persists_the_corpus_witness :
  let w := Samples.world_of None ∅ Samples.two_headlines in
  files (snd (main Samples.fromisoformat Samples.zurich Samples.strftime w))
  !! OUT_TXT
  = Some (lit "2024-01-01 11:00:00 CET | Headline A" ++ BLANK
          ++ lit "2024-01-01 10:00:00 CET | Headline B" ++ BLANK).
Proof.
  intros w.
  destruct (main_persists_the_corpus Samples.fromisoformat Samples.zurich
              Samples.strftime w
              [Row 1704103200000000 (lit "Headline A");
               Row 1704099600000000 (lit "Headline B")]) as [Hfile _];
    [vm_compute; reflexivity|].
  rewrite Hfile. vm_compute. reflexivity.
Defined.

(** X18: when the key is set but the collection returns no record,
    [main] writes an empty corpus file and then ends with the
    [ValueError] that names it; the service is never asked. *)
Theorem main_without_records
        (fromisoformat : str -> result parsed) (utcoffset : Z -> Z)
        (strftime : Z -> str) (w : world) (api_key : str) :
  environ_key w = Some api_key -> api_key <> [] ->
  fst (scrape_last_hours fromisoformat utcoffset USER HOURS_BACK w) = Ok [] ->
  let run := main fromisoformat utcoffset strftime w in
  fst run = Raise (ValueError (lit "Tweet file is empty: " ++ OUT_TXT))
  /\ files (snd run) !! OUT_TXT = Some []
  /\ exists evs,
      trace (snd run) = trace w ++ evs
      /\ Forall (fun ev => is_generate ev = false) evs.
Proof.
  intros Hkey Hne Hrows run. unfold run. rewrite main_run.
  destruct (scrape_quiet fromisoformat utcoffset USER HOURS_BACK w)
    as (Hkey1 & evs1 & Htr1 & Hev1).
  destruct (scrape_last_hours _ _ _ _ w) as [[rows|e] w1]; [|done].
  cbn [fst snd] in *. injection Hrows as ->. cbn zeta.
  change (encodable (serialize strftime [])) with true.
  change (persisted strftime []) with (@nil N). cbn match.
  rewrite summarize_run. cbn [log store environ_key files].
  rewrite Hkey1, Hkey. apply truthy_true in Hne. rewrite Hne.
  rewrite lookup_insert_eq. cbn zeta. rewrite universal_newlines_nil.
  change (strip []) with (@nil N).
  cbn [truthy negb fst snd log store trace files].
  split_and!; [done|apply lookup_insert_eq|].
  exists (evs1 ++ [EvWrite OUT_TXT []; EvConfigure api_key; EvRead OUT_TXT]).
  split; [rewrite Htr1; by rewrite <- !app_assoc|].
  apply Forall_app. split; [done|]. by repeat constructor.
Qed.

Lemma main_without_records_witness :
  fst (main Samples.fromisoformat Samples.zurich Samples.strftime
            (Samples.world_of (Some (lit "k")) ∅ []))
  = Raise (ValueError (lit "Tweet file is empty: financialjuice_last_hours.txt")).
Proof.
  apply (main_without_records Samples.fromisoformat Samples.zurich
           Samples.strftime
           (Samples.world_of (Some (lit "k")) ∅ []) (lit "k"));
    [reflexivity|discriminate|vm_compute; reflexivity].
Defined.

Lemma serialize_nonblank (strftime : Z -> str) (rows : list row) :
  rows <> [] -> strip (serialize strftime rows) <> [].
Proof.
  destruct rows as [|r rows]; [done|]. intros _.
  apply (strip_nonblank 124%N); [|done].
  unfold serialize. cbn [map concat].
  apply in_or_app. left. apply in_or_app. right.
  apply in_or_app. left. vm_compute. tauto.
Qed.

(** X19: when the key is set and the collection returns at least one
    record, the corpus [main] writes is not blank, whatever the
    timestamps and texts look like: the service is asked, unless
    UTF-8 cannot encode the corpus and [main] has stopped at writing
    it. *)
Theorem main_with_records_asks_the_service
        (fromisoformat : str -> result parsed) (utcoffset : Z -> Z)
        (strftime : Z -> str) (w : world) (api_key : str) (rows : list row) :
  environ_key w = Some api_key -> api_key <> [] ->
  fst (scrape_last_hours fromisoformat utcoffset USER HOURS_BACK w)
  = Ok rows ->
  rows <> [] ->
  exists evs,
    trace (snd (main fromisoformat utcoffset strftime w)) = trace w ++ evs
    /\ (Exists (fun ev => is_generate ev = true) evs
        <-> encodable (serialize strftime rows) = true).
Proof.
  intros Hkey Hk Hrows Hne. rewrite main_run.
  destruct (scrape_quiet fromisoformat utcoffset USER HOURS_BACK w)
    as (Hkey1 & evs1 & Htr1 & Hev1).
  destruct (scrape_last_hours _ _ _ _ w) as [[rows'|e] w1]; [|done].
  cbn [fst snd] in *. injection Hrows as ->. cbn zeta.
  destruct (encodable (serialize strftime rows)) eqn:Henc; cycle 1.
  { exists (evs1 ++ [EvWrite OUT_TXT (persisted strftime rows)]).
    cbn [snd log store trace]. rewrite Htr1, <- app_assoc.
    split; [done|]. split; [|done].
    intros [Hex|Hex]%Exists_app.
    - apply Exists_exists in Hex as (ev & Hin & Hgen).
      rewrite Forall_forall in Hev1. specialize (Hev1 ev Hin). congruence.
    - by apply Exists_cons in Hex as [?|?%Exists_nil]. }
  rewrite (persisted_encodable strftime rows Henc).
  set (text := serialize strftime rows).
  set (w2 := log (EvWrite OUT_TXT text) (store OUT_TXT text w1)).
  destruct (summarize_asks OUT_TXT (lit "summary.md") CUSTOM_PROMPT MODEL_NAME
              15000 w2 api_key text) as (evs & Htr & Hex).
  - unfold w2. cbn [log store environ_key]. congruence.
  - done.
  - unfold w2. cbn [log store files]. apply lookup_insert_eq.
  - by apply serialize_nonblank.
  - exists (evs1 ++ [EvWrite OUT_TXT text]
            ++ [EvConfigure api_key; EvRead OUT_TXT] ++ evs).
    split; [|split; [done|intros _; apply Exists_app; right;
                      apply Exists_app; right; apply Exists_app; by right]].
    destruct (summarize_tweets_to_md _ _ _ _ _ w2) as [[res|e] w3];
      cbn [snd] in *; rewrite Htr; unfold w2; cbn [log store trace];
      rewrite Htr1; by rewrite <- !app_assoc.
Qed.

Lemma main_with_records_asks_the_service_witness :
  let w := Samples.world_of (Some (lit "k")) ∅ Samples.two_headlines in
  exists evs,
    trace (snd (main Samples.fromisoformat Samples.zurich Samples.strftime w))
    = trace w ++ evs
    /\ Exists (fun ev => is_generate ev = true) evs.
Proof.
  intros w.
  destruct (main_with_records_asks_the_service Samples.fromisoformat
              Samples.zurich Samples.strftime w (lit "k")
              [Row 1704103200000000 (lit "Headline A");
               Row 1704099600000000 (lit "Headline B")])
    as (evs & Htr & Hiff);
    [reflexivity|discriminate|vm_compute; reflexivity|discriminate|].
  exists evs. split; [exact Htr|]. apply Hiff. vm_compute. reflexivity.
Defined.


(* ================================================================== *)
(** ** Worked examples *)
(* ================================================================== *)

(** ["a\n\n\nb\r\n\nc\n\n"] with a budget of 5. *)
Example chunk_text_example :
  chunk_text [97; 10; 10; 10; 98; 13; 10; 10; 99; 10; 10]%N 5
  = [[97; 10; 10]; [10; 98; 10; 10]; [99; 10; 10; 10; 10]]%N.
Proof. reflexivity. Qed.

(** The corpus file of the two sample headlines, once stripped and
    chunked with the default budget, is one chunk: the file itself. *)
Example two_headlines_one_chunk :
  let file :=
    lit "2024-01-01 11:00:00 CET | Headline A" ++ BLANK
    ++ lit "2024-01-01 10:00:00 CET | Headline B" ++ BLANK in
  chunk_text (strip file) 15000 = [file].
Proof. vm_compute. reflexivity. Qed.

(** With the key set, [main] on the sample page returns, having asked
    the service twice (one chunk, one synthesis) and written both
    files. *)
Example main_with_key :
  let w := Samples.world_of (Some (lit "k")) ∅ Samples.two_headlines in
  let run := main Samples.fromisoformat Samples.zurich Samples.strftime w in
  fst run = Ok ()
  /\ length (filter (fun ev => is_generate ev = true) (trace (snd run)))
     = 2%nat
  /\ files (snd run) !! OUT_TXT
     = Some (lit "2024-01-01 11:00:00 CET | Headline A" ++ BLANK
             ++ lit "2024-01-01 10:00:00 CET | Headline B" ++ BLANK)
  /\ files (snd run) !! lit "summary.md" = Some [].
Proof. vm_compute. split_and!; reflexivity. Qed.

(** A corpus file with carriage returns, ["a\r\r\nb"], is read as
    ["a\n\nb"]: with a budget of 3 it makes two chunks, and two
    requests before the synthesis. *)
Example carriage_returns_are_read_as_line_feeds :
  let path := lit "tweets.txt" in
  let w := Samples.world_of (Some (lit "k"))
                            {[ path := [97; 13; 13; 10; 98]%N ]} [] in
  fst (summarize_tweets_to_md path (lit "summary.md") CUSTOM_PROMPT
                              MODEL_NAME 3 w)
  = Ok (lit "summary.md", 4, 2).
Proof. vm_compute. reflexivity. Qed.

(** A summary UTF-8 cannot encode leaves the summary file empty. *)
Example summary_with_a_lone_surrogate :
  let path := lit "tweets.txt" in
  let garbling (model_name : str) (parts : list str) : result (option str) :=
    Ok (Some Samples.lone_surrogate) in
  let w := World (Some (lit "k"))
                 {[ path := lit "a"; lit "summary.md" := lit "old" ]}
                 0 [] garbling [] in
  let run := summarize_tweets_to_md path (lit "summary.md") CUSTOM_PROMPT
                                    MODEL_NAME 15000 w in
  fst run = Raise UnicodeEncodeError
  /\ files (snd run) !! lit "summary.md" = Some [].
Proof. vm_compute. split; reflexivity. Qed.

(** A record UTF-8 cannot encode stops [main] at the corpus file, which
    keeps the records before it. *)
Example record_with_a_lone_surrogate :
  let broken :=
    Article (Some (Some (lit "/financialjuice/status/9")))
            (Some (Some (lit "2024-01-01T09:00:00.000Z")))
            [Samples.lone_surrogate] in
  let w := Samples.world_of (Some (lit "k")) ∅
                            [[Samples.headline_a; broken]] in
  let run := main Samples.fromisoformat Samples.zurich Samples.strftime w in
  fst run = Raise UnicodeEncodeError
  /\ files (snd run) !! OUT_TXT
     = Some (lit "2024-01-01 11:00:00 CET | Headline A" ++ BLANK)
  /\ filter (fun ev => is_generate ev = true) (trace (snd run)) = [].
Proof. vm_compute. split_and!; reflexivity. Qed.

(** A post of the last half hour of the year 9999 cannot be shown in
    Zurich, an hour ahead: the change of zone raises and the run
    ends. *)
Example last_hour_of_the_calendar :
  let parse (s : str) : result parsed := Ok (Aware 253402299000000000) in
  let late :=
    Article (Some (Some (lit "/financialjuice/status/10")))
            (Some (Some (lit "9999-12-31T23:30:00.000Z")))
            [lit "Headline G"] in
  in_range 253402299000000000 = true
  /\ fst (scrape_last_hours parse Samples.zurich USER HOURS_BACK
                            (Samples.world_of None ∅ [[late]]))
     = Raise OverflowError.
Proof. vm_compute. split; reflexivity. Qed.
